(** * nanos: trap/interrupt dispatch and the drift-corrected clock

    A shallow embedding of [src/runtime/clock.h] and
    [src/aarch64/interrupt.c], with the properties of the design
    document stated and proved against it.

    Conventions.  A C integer of width 64 is a [Z]; every operation that
    can leave the range of its C type is followed by the wrap-around of
    that type ([u64] for [u64]/[timestamp], [s64] for [s64]).  Signed
    overflow is modelled as two's-complement wrap-around. *)

From Stdlib Require Import ZArith Lia.
From stdpp Require Import base gmap list strings functions.

(** ** 64-bit machine integers *)

Module Int64.
Local Open Scope Z_scope.

Definition modulus : Z := 2 ^ 64.
Definition half_modulus : Z := 2 ^ 63.

(** Conversion to [u64] / [timestamp]. *)
Definition u64 (z : Z) : Z := z mod modulus.

(** Conversion to [s64]. *)
Definition s64 (z : Z) : Z := (z + half_modulus) mod modulus - half_modulus.

Definition in_u64 (z : Z) : Prop := 0 <= z < modulus.
Definition in_s64 (z : Z) : Prop := - half_modulus <= z < half_modulus.

End Int64.

(** ** The clock: [src/runtime/clock.h] (KERNEL build) *)

Module Clock.
Import Int64.
Local Open Scope Z_scope.

(** Number of fractional bits in fixed-point clock calibration value. *)
Definition CLOCK_CALIBR_BITS : Z := 32.

Inductive clock_id : Set :=
| CLOCK_ID_REALTIME
| CLOCK_ID_MONOTONIC
| CLOCK_ID_PROCESS_CPUTIME_ID
| CLOCK_ID_THREAD_CPUTIME_ID
| CLOCK_ID_MONOTONIC_RAW
| CLOCK_ID_REALTIME_COARSE
| CLOCK_ID_MONOTONIC_COARSE
| CLOCK_ID_BOOTTIME
| CLOCK_ID_REALTIME_ALARM
| CLOCK_ID_BOOTTIME_ALARM.

Inductive vdso_clock_id : Set :=
| VDSO_CLOCK_SYSCALL
| VDSO_CLOCK_HPET
| VDSO_CLOCK_TSC_STABLE
| VDSO_CLOCK_PVCLOCK
| VDSO_CLOCK_NRCLOCKS.

#[global] Instance clock_id_eq_dec : EqDecision clock_id.
Proof. solve_decision. Defined.

(** Modelled from the spec: the shared time structure [vdso_dat] of
    [vdso.h], which is not among the sources.  The fields are the ones
    [clock.h] reads and writes; [temp_cal], [cal] and [last_drift] are
    [s64] (they are passed and assigned as such), [sync_complete] and
    [last_raw] are timestamps (compared with and subtracted from the raw
    reading), and [rtc_offset] holds the [u64] value of the expression
    assigned to it. *)
Record vdso_dat : Set := mk_vdso_dat {
  clock_src : vdso_clock_id;
  platform_has_rdtscp : bool;
  rtc_offset : Z;
  temp_cal : Z;
  cal : Z;
  sync_complete : Z;
  last_raw : Z;
  last_drift : Z
}.

(** The fields hold values of their C types. *)
Record wf_vdso (d : vdso_dat) : Prop := mk_wf_vdso {
  wf_rtc_offset : in_u64 (rtc_offset d);
  wf_temp_cal : in_s64 (temp_cal d);
  wf_cal : in_s64 (cal d);
  wf_sync_complete : in_u64 (sync_complete d);
  wf_last_raw : in_u64 (last_raw d);
  wf_last_drift : in_s64 (last_drift d)
}.

(** [clock_calculate_drift(timestamp interval, s64 cal)].  The product is
    taken in [u64] ([cal] is converted to the unsigned type of
    [interval]), the shift is the logical shift of a [u64], and the
    result is converted to the [s64] return type. *)
Definition clock_calculate_drift (interval cal : Z) : Z :=
  if 0 <=? cal then
    s64 (Z.shiftr (u64 (interval * u64 cal)) CLOCK_CALIBR_BITS)
  else
    s64 (u64 (- Z.shiftr (u64 (interval * u64 (s64 (- cal)))) CLOCK_CALIBR_BITS)).

(** [clock_get_drift(timestamp raw)], reading the shared structure [d]. *)
Definition clock_get_drift (d : vdso_dat) (raw : Z) : Z :=
  if (temp_cal d =? 0) && (cal d =? 0) then 0
  else
    let drift := last_drift d in
    if sync_complete d <? raw then
      if sync_complete d <? last_raw d then
        s64 (drift + clock_calculate_drift (u64 (raw - last_raw d)) (cal d))
      else
        let drift :=
          s64 (drift + clock_calculate_drift
                         (u64 (sync_complete d - last_raw d)) (temp_cal d)) in
        s64 (drift + clock_calculate_drift (u64 (raw - sync_complete d)) (cal d))
    else
      s64 (drift + clock_calculate_drift (u64 (raw - last_raw d)) (temp_cal d)).

Definition set_last (d : vdso_dat) (drift raw : Z) : vdso_dat :=
  {| clock_src := clock_src d;
     platform_has_rdtscp := platform_has_rdtscp d;
     rtc_offset := rtc_offset d;
     temp_cal := temp_cal d;
     cal := cal d;
     sync_complete := sync_complete d;
     last_raw := raw;
     last_drift := drift |}.

(** [clock_update_drift(timestamp raw)]: the drift and the updated
    structure. *)
Definition clock_update_drift (d : vdso_dat) (raw : Z) : Z * vdso_dat :=
  let drift := clock_get_drift d raw in
  (drift, set_last d drift raw).

Section Source.

(** The hardware as seen at the instant of a call: counters and the
    real-time clock are read from it. *)
Variable hw : Type.

(** [closure_type(clock_now, timestamp)]. *)
Definition clock_now : Type := hw -> Z.

(** [u64 rtc_gettimeofday(void)], an external collaborator: epoch
    seconds, or zero if there is no real-time clock. *)
Variable rtc_gettimeofday : hw -> Z.

Record clock_state : Type := mk_clock_state {
  platform_monotonic_now : clock_now;
  vdso : vdso_dat
}.

(** [apply(cn)]: the reading is a [timestamp]. *)
Definition apply_clock_now (cn : clock_now) (e : hw) : Z := u64 (cn e).

(** [now(clock_id id)]. *)
Definition now (id : clock_id) (e : hw) (s : clock_state) : Z * clock_state :=
  let t := apply_clock_now (platform_monotonic_now s) e in
  if decide (id = CLOCK_ID_MONOTONIC_RAW) then (t, s)
  else
    let '(drift, d) := clock_update_drift (vdso s) t in
    let t := u64 (t + drift) in
    let s := {| platform_monotonic_now := platform_monotonic_now s; vdso := d |} in
    match id with
    | CLOCK_ID_REALTIME
    | CLOCK_ID_REALTIME_COARSE => (u64 (t + rtc_offset d), s)
    | _ => (t, s)
    end.

(** [uptime()]. *)
Definition uptime (e : hw) (s : clock_state) : Z * clock_state :=
  now CLOCK_ID_BOOTTIME e s.

(** [platform_has_precise_clocksource()]. *)
Definition platform_has_precise_clocksource (s : clock_state) : bool :=
  platform_has_rdtscp (vdso s).

(** [reset_clock_vdso_dat()]. *)
Definition reset_clock_vdso_dat (e : hw) (s : clock_state) : clock_state :=
  let rt := u64 (rtc_gettimeofday e) in
  let off :=
    if rt =? 0 then 0
    else u64 (u64 (Z.shiftl rt 32) - apply_clock_now (platform_monotonic_now s) e) in
  {| platform_monotonic_now := platform_monotonic_now s;
     vdso := {| clock_src := clock_src (vdso s);
                platform_has_rdtscp := platform_has_rdtscp (vdso s);
                rtc_offset := off;
                temp_cal := 0;
                cal := 0;
                sync_complete := 0;
                last_raw := 0;
                last_drift := 0 |} |}.

(** [register_platform_clock_now(clock_now cn, vdso_clock_id id)]. *)
Definition register_platform_clock_now
    (cn : clock_now) (id : vdso_clock_id) (e : hw) (s : clock_state) : clock_state :=
  let s := {| platform_monotonic_now := cn;
              vdso := {| clock_src := id;
                         platform_has_rdtscp := platform_has_rdtscp (vdso s);
                         rtc_offset := rtc_offset (vdso s);
                         temp_cal := temp_cal (vdso s);
                         cal := cal (vdso s);
                         sync_complete := sync_complete (vdso s);
                         last_raw := last_raw (vdso s);
                         last_drift := last_drift (vdso s) |} |} in
  reset_clock_vdso_dat e s.

End Source.

(** *** The drift rule in the words of the design document *)

(** The rule as it is printed, on the integers: no width is given for
    the interval, the product or the sum, so none is applied here. *)



End Clock.

(** ** Interrupt and exception dispatch: [src/aarch64/interrupt.c] *)

Module Interrupt.
Import Int64.
Local Open Scope Z_scope.

(** end of exceptions; defined by architecture *)
Definition INTERRUPT_VECTOR_START : Z := 32.
(** as defined by architecture; we may have less *)
Definition MAX_INTERRUPT_VECTORS : Z := 256.

(** A [thunk] is a pointer to a closure. *)
Definition thunk : Set := Z.

(** [struct inthandler]; the list linkage is the position in the
    per-vector sequence. *)
Record inthandler : Set := mk_inthandler {
  t : thunk;
  name : string
}.

(** Modelled from the spec: the exception syndrome layout of
    [kernel_machine.h], which is not among the sources ("classification
    decodes a combined cause register").  The values are those of the
    ARMv8-A [ESR_ELx] register: exception class in bits 31..26,
    instruction-length bit 25, and for a supervisor call the 16-bit
    immediate in bits 15..0. *)
Definition ESR_EC_SHIFT : Z := 26.
Definition ESR_EC_BITS : Z := 6.
Definition ESR_EC_SVC_AARCH64 : Z := 0x15.
Definition ESR_IL : Z := Z.shiftl 1 25.
Definition ESR_ISS_IMM16_SHIFT : Z := 0.
Definition ESR_ISS_IMM16_BITS : Z := 16.

(** [MASK(n)] and [field_from_u64(v, f)]. *)
Definition MASK (bits : Z) : Z := Z.shiftl 1 bits - 1.
Definition field_from_u64 (v shift bits : Z) : Z :=
  Z.land (Z.shiftr v shift) (MASK bits).

(** Modelled from the spec: the slots of an execution frame ("saved
    register set plus metadata"), whose indices are declared in a header
    that is not among the sources.  A frame is an array of [u64] indexed
    by these names; slot [FRAME_X8] is register x8 ([textoreg]). *)
Inductive frame_slot : Set :=
| FRAME_X8
| FRAME_SP
| FRAME_VECTOR
| FRAME_ESR_SPSR
| FRAME_EL
| FRAME_ELR
| FRAME_FULL
| FRAME_FAULT_HANDLER.

#[global] Instance frame_slot_eq_dec : EqDecision frame_slot.
Proof. solve_decision. Defined.

Definition frame : Set := frame_slot -> Z.

(** [esr_from_frame(f)]: the upper half of the combined word, as a [u32]
    (as in [print_frame]). *)
Definition esr_from_frame (f : frame) : Z :=
  Z.shiftr (f FRAME_ESR_SPSR) 32 mod 2 ^ 32.

(** The test of [synchronous_handler] for the syscall trap. *)
Definition is_syscall_trap (esr : Z) : bool :=
  (field_from_u64 esr ESR_EC_SHIFT ESR_EC_BITS =? ESR_EC_SVC_AARCH64)
  && negb (Z.land esr ESR_IL =? 0)
  && (field_from_u64 esr ESR_ISS_IMM16_SHIFT ESR_ISS_IMM16_BITS =? 0).

(** Modelled from the spec: the run state of a core (idle / interrupt /
    kernel); only [cpu_interrupt] is named in the sources. *)
Inductive cpu_state : Set := cpu_idle | cpu_interrupt | cpu_kernel.

(** The per-core context: frames are referred to by address. *)
Record cpuinfo : Set := mk_cpuinfo {
  running_frame : Z;
  kernel_context_frame : Z;
  state : cpu_state
}.

(** Modelled from the spec: the interrupt controller ([gic.h] is not
    among the sources): enable bits, pending latches and priorities per
    line, and, as an opaque id source, the ids that successive calls of
    [gic_dispatch_int] hand out. *)
Record gic_state : Type := mk_gic {
  gic_enabled : gset Z;
  gic_pending : gset Z;
  gic_priority : gmap Z Z;
  gic_incoming : list Z
}.

(** What the dispatch code does to its collaborators, in order. *)
Inductive event : Set :=
| EvApply (th : thunk)
| EvGicEoi (i : Z)
| EvGicSetPriority (v pri : Z)
| EvGicClearPending (v : Z)
| EvGicEnable (v : Z)
| EvGicDisable (v : Z)
| EvSyscall (f : Z)
| EvFaultHandler (fh f : Z)
| EvPrintFrame (f : Z)
| EvPrintStack (lines : list (Z * Z)).

(** How control leaves the trap path without returning; [ExFault] is a
    fault taken on an address the trap path itself dereferenced, which
    re-enters the exception vector (the entry stubs are not among the
    sources). *)
Inductive exit : Set :=
| ExHalt (fmt : string) (arg : Z)
| ExAssert (cond : string)
| ExSyscall (f : Z)
| ExFrameReturn (f : Z)
| ExRunloop
| ExSpin
| ExFault (addr : Z).

(** *** The diagnostic stack walks *)

Module StackTrace.
Import Int64.
Local Open Scope Z_scope.

Definition STACK_TRACE_DEPTH : nat := 128.

(** A walk prints its lines, or takes a fault on the address it
    dereferenced. *)
Inductive walk (A : Type) : Type :=
| Finished (out : list A)
| Faulted (addr : Z) (out : list A).
Arguments Finished {A}.
Arguments Faulted {A}.

Definition printed {A} (w : walk A) : list A :=
  match w with Finished out | Faulted _ out => out end.

Definition print_then {A} (line : A) (w : walk A) : walk A :=
  match w with
  | Finished out => Finished (line :: out)
  | Faulted a out => Faulted a (line :: out)
  end.

Section Memory.

(** Which byte addresses are mapped, and the [u64] stored at an address. *)
Variable mapped : Z -> bool.
Variable load64 : Z -> Z.

Definition range_mapped (base len : Z) : bool :=
  forallb (fun k => mapped (base + k)) (seqZ 0 len).

(** Modelled from the spec: [validate_virtual(base, length)], the
    "validity check against mapped memory" of the virtual-memory
    collaborator. *)
Definition validate_virtual (base len : Z) : bool := range_mapped base len.

(** [*p] for a [u64 *p]: a fault unless its eight bytes are mapped. *)
Definition deref (p : Z) : option Z :=
  if range_mapped p 8 then Some (load64 p) else None.

(** The loop of [frame_trace(u64 *fp)], with [n] frames left to go;
    it prints return addresses. *)
Fixpoint frame_trace_from (n : nat) (fp : Z) : walk Z :=
  match n with
  | O => Finished []
  | S n' =>
      if fp <? 4096 then Finished []
      else if negb (validate_virtual fp 8)
              || negb (validate_virtual (u64 (fp + 8)) 8) then Finished []
      else
        match deref (u64 (fp + 8)) with
        | None => Faulted (u64 (fp + 8)) []
        | Some ra =>
            if ra =? 0 then Finished []
            else
              match deref fp with
              | None => Faulted fp []
              | Some next => print_then ra (frame_trace_from n' next)
              end
        end
  end.

Definition frame_trace (fp : Z) : walk Z := frame_trace_from 16 fp.

(** The loop of [print_stack(context c)], with [n] entries left to go;
    it prints each address with the word found there. *)
Fixpoint print_stack_from (n : nat) (x : Z) : walk (Z * Z) :=
  match n with
  | O => Finished []
  | S n' =>
      if x <? 0xffff000000020000 then
        match deref x with
        | None => Faulted x []
        | Some v => print_then (x, v) (print_stack_from n' (u64 (x + 8)))
        end
      else Finished []
  end.

Definition print_stack (c : Interrupt.frame) : walk (Z * Z) :=
  print_stack_from STACK_TRACE_DEPTH (c Interrupt.FRAME_SP).

End Memory.
End StackTrace.

Section Machine.

(** Whatever the opaque callables act upon. *)
Variable world : Type.
(** [apply(t)] for a handler thunk. *)
Variable apply_thunk : thunk -> world -> world.
(** [apply(fh, f)] for a fault handler: the frame to resume (null: none). *)
Variable apply_fault_handler : Z -> Z -> world -> Z * world.
(** The syscall entry point, called with the trapped frame; [None] when
    it does not return. *)
Variable syscall : Z -> world -> option world.
(** The id [gic_dispatch_int] returns when nothing is pending ([gic.h]). *)
Variable INTID_NO_PENDING : Z.
(** Memory as the diagnostics read it: which byte addresses are mapped,
    and the [u64] stored at an address. *)
Variable mapped : Z -> bool.
Variable load64 : Z -> Z.

Record machine : Type := mk_machine {
  handlers : list (list inthandler);
  int_general : Z;
  gic : gic_state;
  cpu : cpuinfo;
  frames : gmap Z frame;
  env : world;
  trace : list event
}.

Inductive outcome (A : Type) : Type :=
| Ret (a : A) (s : machine)
| Exit (x : exit) (s : machine)
| Undef.
Arguments Ret {A}.
Arguments Exit {A}.
Arguments Undef {A}.

(** Code running on the machine: it returns, leaves for good, or has
    no defined behaviour (an index outside an array, a frame that is
    not there). *)
Definition M (A : Type) : Type := machine -> outcome A.

Definition ret {A} (a : A) : M A := fun s => Ret a s.
Definition bind {A B} (m : M A) (k : A -> M B) : M B :=
  fun s => match m s with
           | Ret a s' => k a s'
           | Exit x s' => Exit x s'
           | Undef => Undef
           end.

Notation "'let*' x ':=' m 'in' k" := (bind m (fun x => k))
  (at level 10, x name, m at level 100, k at level 200).
Notation "m ';;' k" := (bind m (fun _ => k))
  (at level 100, k at level 200, right associativity).

Definition get : M machine := fun s => Ret s s.
Definition put (s : machine) : M unit := fun _ => Ret tt s.
Definition leave {A} (x : exit) : M A := fun s => Exit x s.
Definition undefined {A} : M A := fun _ => Undef.
Definition halt {A} (fmt : string) (arg : Z) : M A := leave (ExHalt fmt arg).
Definition assert (cond : string) (b : bool) : M unit :=
  if b then ret tt else leave (ExAssert cond).
Definition log (e : event) : M unit :=
  fun s => Ret tt (mk_machine (handlers s) (int_general s) (gic s) (cpu s)
                              (frames s) (env s) (trace s ++ [e])).

Definition set_handlers (h : list (list inthandler)) : M unit :=
  fun s => Ret tt (mk_machine h (int_general s) (gic s) (cpu s)
                              (frames s) (env s) (trace s)).
Definition set_int_general (n : Z) : M unit :=
  fun s => Ret tt (mk_machine (handlers s) n (gic s) (cpu s)
                              (frames s) (env s) (trace s)).
Definition set_gic (g : gic_state) : M unit :=
  fun s => Ret tt (mk_machine (handlers s) (int_general s) g (cpu s)
                              (frames s) (env s) (trace s)).
Definition set_cpu (c : cpuinfo) : M unit :=
  fun s => Ret tt (mk_machine (handlers s) (int_general s) (gic s) c
                              (frames s) (env s) (trace s)).
Definition set_frames (fs : gmap Z frame) : M unit :=
  fun s => Ret tt (mk_machine (handlers s) (int_general s) (gic s) (cpu s)
                              fs (env s) (trace s)).
Definition set_env (w : world) : M unit :=
  fun s => Ret tt (mk_machine (handlers s) (int_general s) (gic s) (cpu s)
                              (frames s) w (trace s)).

(** *** Frames *)

Definition frame_load (f : Z) : M frame :=
  let* s := get in
  match frames s !! f with
  | Some fr => ret fr
  | None => undefined
  end.

(** [f[slot]]. *)
Definition frame_get (f : Z) (slot : frame_slot) : M Z :=
  let* fr := frame_load f in ret (fr slot).

(** [f[slot] = v]. *)
Definition frame_set (f : Z) (slot : frame_slot) (v : Z) : M unit :=
  let* fr := frame_load f in
  let* s := get in
  set_frames (<[f := fn_insert slot v fr]> (frames s)).

Definition current_cpu : M cpuinfo := let* s := get in ret (cpu s).

(** Modelled from the spec: [is_current_kernel_context(f)], "the trap
    occurred while already in the kernel's own context". *)
Definition is_current_kernel_context (f : Z) : M bool :=
  let* ci := current_cpu in ret (bool_decide (f = kernel_context_frame ci)).

(** *** Collaborators that take control *)

(** [runloop()] and [frame_return(f)] do not return. *)
Definition runloop {A} : M A := leave ExRunloop.
Definition frame_return {A} (f : Z) : M A := leave (ExFrameReturn f).

(** [switch_stack_1(s, syscall, f)]: call the syscall entry with [f]. *)
Definition switch_stack_1_syscall (f : Z) : M unit :=
  log (EvSyscall f) ;;
  let* s := get in
  match syscall f (env s) with
  | Some w => set_env w
  | None => leave (ExSyscall f)
  end.

(** [apply(fh, f)] for a fault handler. *)
Definition apply_fh (fh f : Z) : M Z :=
  log (EvFaultHandler fh f) ;;
  let* s := get in
  let '(retframe, w) := apply_fault_handler fh f (env s) in
  set_env w ;; ret retframe.

(** [apply(h->t)] for a handler thunk. *)
Definition apply (th : thunk) : M unit :=
  log (EvApply th) ;;
  let* s := get in set_env (apply_thunk th (env s)).

(** *** The interrupt controller interface *)

Definition gic_dispatch_int : M Z :=
  let* s := get in
  let g := gic s in
  match gic_incoming g with
  | [] => ret INTID_NO_PENDING
  | i :: rest =>
      set_gic (mk_gic (gic_enabled g) (gic_pending g) (gic_priority g) rest) ;;
      ret (u64 i)
  end.

Definition gic_eoi (i : Z) : M unit := log (EvGicEoi i).

Definition gic_set_int_priority (v pri : Z) : M unit :=
  let* s := get in
  let g := gic s in
  set_gic (mk_gic (gic_enabled g) (gic_pending g) (<[v := pri]> (gic_priority g))
                  (gic_incoming g)) ;;
  log (EvGicSetPriority v pri).

Definition gic_clear_pending_int (v : Z) : M unit :=
  let* s := get in
  let g := gic s in
  set_gic (mk_gic (gic_enabled g) (gic_pending g ∖ {[v]}) (gic_priority g)
                  (gic_incoming g)) ;;
  log (EvGicClearPending v).

Definition gic_enable_int (v : Z) : M unit :=
  let* s := get in
  let g := gic s in
  set_gic (mk_gic ({[v]} ∪ gic_enabled g) (gic_pending g) (gic_priority g)
                  (gic_incoming g)) ;;
  log (EvGicEnable v).

Definition gic_disable_int (v : Z) : M unit :=
  let* s := get in
  let g := gic s in
  set_gic (mk_gic (gic_enabled g ∖ {[v]}) (gic_pending g) (gic_priority g)
                  (gic_incoming g)) ;;
  log (EvGicDisable v).

(** *** The heap [int_general] and the handler lists *)

(** Modelled from the spec: the generic heap allocator, as the number
    of bytes it can still hand out; [allocate] yields [false] for
    [INVALID_ADDRESS]. *)
Definition allocate (size : Z) : M bool :=
  let* s := get in
  if size <=? int_general s
  then set_int_general (int_general s - size) ;; ret true
  else ret false.

Definition deallocate (size : Z) : M unit :=
  let* s := get in set_int_general (int_general s + size).

(** [sizeof(struct inthandler)]: two list links, a thunk and a name. *)
Definition sizeof_inthandler : Z := 32.

(** [handlers[v]]; the table has no entry outside its bounds. *)
Definition handlers_at (v : Z) : M (list inthandler) :=
  let* s := get in
  if v <? 0 then undefined
  else match handlers s !! Z.to_nat v with
       | Some l => ret l
       | None => undefined
       end.

Definition set_handlers_at (v : Z) (l : list inthandler) : M unit :=
  let* s := get in set_handlers (<[Z.to_nat v := l]> (handlers s)).

(** Modelled from the spec: [list_insert_before(&handlers[v], &h->l)] of
    [list.h]; inserting before the head of the circular list "appends
    the handler". *)
Definition list_insert_before (v : Z) (h : inthandler) : M unit :=
  let* l := handlers_at v in set_handlers_at v (l ++ [h]).

(** Modelled from the spec: [list_delete(&h->l)] for the element the
    traversal of [handlers[v]] stands on, which is the first one left. *)
Definition list_delete (v : Z) : M unit :=
  let* l := handlers_at v in set_handlers_at v (tail l).

Definition list_empty (l : list inthandler) : bool :=
  match l with [] => true | _ => false end.

(** *** Registration *)

(** [register_interrupt(int vector, thunk t, const char *name)]. *)
Definition register_interrupt (vector : Z) (th : thunk) (nm : string) : M unit :=
  let* l := handlers_at vector in
  let initialized := negb (list_empty l) in
  let* h := allocate sizeof_inthandler in
  assert "h != INVALID_ADDRESS" h ;;
  list_insert_before vector (mk_inthandler th nm) ;;
  if negb initialized then
    gic_set_int_priority vector 0 ;;
    gic_clear_pending_int vector ;;
    gic_enable_int vector
  else ret tt.

(** The traversal of [unregister_interrupt]. *)
Fixpoint unregister_each (vector : Z) (l : list inthandler) : M unit :=
  match l with
  | [] => ret tt
  | _ :: rest =>
      list_delete vector ;;
      deallocate sizeof_inthandler ;;
      unregister_each vector rest
  end.

(** [unregister_interrupt(int vector)]. *)
Definition unregister_interrupt (vector : Z) : M unit :=
  gic_disable_int vector ;;
  let* l := handlers_at vector in
  (if list_empty l
   then halt "unregister_interrupt: no handler registered for vector %d" vector
   else ret tt) ;;
  unregister_each vector l.

(** *** The interrupt dispatcher *)

(** [ci->state = cpu_interrupt]. *)
Definition set_cpu_state (st : cpu_state) : M unit :=
  let* ci := current_cpu in
  set_cpu (mk_cpuinfo (running_frame ci) (kernel_context_frame ci) st).

(** The traversal of [handlers[i]] in [irq_handler]. *)
Fixpoint invoke_each (l : list inthandler) : M unit :=
  match l with
  | [] => ret tt
  | h :: rest =>
      set_cpu_state cpu_interrupt ;;
      apply (t h) ;;
      invoke_each rest
  end.

(** The body of the loop of [irq_handler] for the dispatched id [i]. *)
Definition irq_dispatch (i : Z) : M unit :=
  (if MAX_INTERRUPT_VECTORS <=? i
   then halt "dispatched interrupt %d exceeds MAX_INTERRUPT_VECTORS" i
   else ret tt) ;;
  let* l := handlers_at i in
  (if list_empty l then halt "no handler for interrupt %d" i else ret tt) ;;
  invoke_each l ;;
  gic_eoi i.

(** The loop of [irq_handler]; [n] bounds the number of further ids the
    controller can hand out, and is never exhausted when it starts at
    the number of incoming ids ([irq_loop_enough]). *)
Fixpoint irq_loop (n : nat) : M unit :=
  let* i := gic_dispatch_int in
  if i =? INTID_NO_PENDING then ret tt
  else
    irq_dispatch i ;;
    match n with
    | O => undefined
    | S n' => irq_loop n'
    end.

(** [irq_handler()]. *)
Definition irq_handler : M unit :=
  let* ci := current_cpu in
  let f := running_frame ci in
  let* s := get in
  irq_loop (length (gic_incoming (gic s))) ;;
  let* k := is_current_kernel_context f in
  (if k then frame_set f FRAME_FULL 0 else ret tt) ;;
  runloop.

(** *** The synchronous exception dispatcher *)

(** [print_frame(f)] writes the slots of the frame to the console; for
    an exception vector it also reads the names on [handlers[v]], inside
    the table. *)
Definition print_frame (f : Z) : M unit := log (EvPrintFrame f).

(** [print_stack(f)] on the machine: the lines of the scan reach the
    console, and a scan that faults takes the core with it. *)
Definition print_stack (f : Z) : M unit :=
  let* fr := frame_load f in
  match StackTrace.print_stack mapped load64 fr with
  | StackTrace.Finished out => log (EvPrintStack out)
  | StackTrace.Faulted a out => log (EvPrintStack out) ;; leave (ExFault a)
  end.

(** [synchronous_handler()]. *)
Definition synchronous_handler : M unit :=
  let* ci := current_cpu in
  let f := running_frame ci in
  let* fr := frame_load f in
  let esr := esr_from_frame fr in
  (if is_syscall_trap esr then
     let* x8 := frame_get f FRAME_X8 in
     frame_set f FRAME_VECTOR x8 ;;
     set_cpu (mk_cpuinfo (kernel_context_frame ci) (kernel_context_frame ci)
                         (state ci)) ;;
     switch_stack_1_syscall f ;;
     halt "synchronous_handler: syscall returned" 0
   else ret tt) ;;
  let* fh := frame_get f FRAME_FAULT_HANDLER in
  if negb (fh =? 0) then
    let* retframe := apply_fh fh f in
    (if negb (retframe =? 0) then frame_return retframe else ret tt) ;;
    let* k := is_current_kernel_context f in
    (if k then frame_set f FRAME_FULL 0 else ret tt) ;;
    runloop
  else
    print_frame f ;;
    print_stack f ;;
    leave ExSpin.

(** [serror_handler()] and [invalid_handler()]. *)
Definition serror_handler : M unit := halt "serror_handler" 0.
Definition invalid_handler : M unit := halt "invalid_handler" 0.

End Machine.

Arguments handlers {world} _.
Arguments int_general {world} _.
Arguments gic {world} _.
Arguments cpu {world} _.
Arguments frames {world} _.
Arguments env {world} _.
Arguments trace {world} _.
Arguments Ret {world A} _ _.
Arguments Exit {world A} _ _.
Arguments Undef {world A}.
Arguments ret {world A} _ _.
Arguments bind {world A B} _ _ _.
Arguments get {world} _.
Arguments leave {world A} _ _.
Arguments undefined {world A} _.
Arguments halt {world A} _ _ _.
Arguments assert {world} _ _ _.
Arguments log {world} _ _.
Arguments set_handlers {world} _ _.
Arguments set_int_general {world} _ _.
Arguments set_gic {world} _ _.
Arguments set_cpu {world} _ _.
Arguments set_frames {world} _ _.
Arguments set_env {world} _ _.
Arguments frame_load {world} _ _.
Arguments frame_get {world} _ _ _.
Arguments frame_set {world} _ _ _ _.
Arguments current_cpu {world} _.
Arguments is_current_kernel_context {world} _ _.
Arguments runloop {world A} _.
Arguments frame_return {world A} _ _.
Arguments switch_stack_1_syscall {world} _ _ _.
Arguments apply_fh {world} _ _ _ _.
Arguments apply {world} _ _ _.
Arguments gic_dispatch_int {world} _ _.
Arguments gic_eoi {world} _ _.
Arguments gic_set_int_priority {world} _ _ _.
Arguments gic_clear_pending_int {world} _ _.
Arguments gic_enable_int {world} _ _.
Arguments gic_disable_int {world} _ _.
Arguments allocate {world} _ _.
Arguments deallocate {world} _ _.
Arguments handlers_at {world} _ _.
Arguments set_handlers_at {world} _ _ _.
Arguments list_insert_before {world} _ _ _.
Arguments list_delete {world} _ _.
Arguments register_interrupt {world} _ _ _ _.
Arguments unregister_each {world} _ _ _.
Arguments unregister_interrupt {world} _ _.
Arguments set_cpu_state {world} _ _.
Arguments invoke_each {world} _ _ _.
Arguments irq_dispatch {world} _ _ _.
Arguments irq_loop {world} _ _ _ _.
Arguments irq_handler {world} _ _ _.
Arguments print_frame {world} _ _.
Arguments print_stack {world} _ _ _ _.
Arguments synchronous_handler {world} _ _ _ _ _.
Arguments serror_handler {world} _.
Arguments invalid_handler {world} _.
End Interrupt.

(** * Properties *)

(** ** Facts on 64-bit wrap-around *)

Module Int64Facts.
Import Int64.
Local Open Scope Z_scope.

Lemma u64_range z : in_u64 (u64 z).
Proof. unfold in_u64, u64, modulus. apply Z.mod_pos_bound. lia. Qed.

Lemma s64_range z : in_s64 (s64 z).
Proof.
  unfold in_s64, s64, modulus, half_modulus.
  pose proof (Z.mod_pos_bound (z + 2 ^ 63) (2 ^ 64)). lia.
Qed.

Lemma u64_id z : in_u64 z -> u64 z = z.
Proof. unfold in_u64, u64. intros H. apply Z.mod_small. exact H. Qed.

Lemma s64_id z : in_s64 z -> s64 z = z.
Proof.
  unfold in_s64, s64, modulus, half_modulus. intros H.
  rewrite Z.mod_small; lia.
Qed.

Lemma s64_u64 z : s64 (u64 z) = s64 z.
Proof.
  unfold s64, u64, modulus, half_modulus.
  rewrite Zplus_mod_idemp_l. reflexivity.
Qed.

Lemma u64_s64 z : u64 (s64 z) = u64 z.
Proof.
  unfold s64, u64, modulus, half_modulus.
  rewrite <- Zminus_mod_idemp_l.
  replace ((z + 2 ^ 63) mod 2 ^ 64 mod 2 ^ 64) with ((z + 2 ^ 63) mod 2 ^ 64)
    by (symmetry; apply Z.mod_mod; lia).
  rewrite Zminus_mod_idemp_l. f_equal. lia.
Qed.


Lemma u64_add_l a b : u64 (u64 a + b) = u64 (a + b).
Proof. unfold u64. apply Zplus_mod_idemp_l. Qed.

Lemma u64_add_r a b : u64 (a + u64 b) = u64 (a + b).
Proof. unfold u64. apply Zplus_mod_idemp_r. Qed.

Lemma u64_sub_l a b : u64 (u64 a - b) = u64 (a - b).
Proof. unfold u64. apply Zminus_mod_idemp_l. Qed.

Lemma u64_sub_r a b : u64 (a - u64 b) = u64 (a - b).
Proof. unfold u64. apply Zminus_mod_idemp_r. Qed.

(** A logical right shift by 32 of a [u64] leaves 32 bits. *)
Lemma shiftr32_u64 z : 0 <= Z.shiftr (u64 z) 32 < 2 ^ 32.
Proof.
  rewrite Z.shiftr_div_pow2 by lia.
  pose proof (u64_range z) as H. unfold in_u64, modulus in H.
  split.
  - apply Z.div_pos; lia.
  - apply Z.div_lt_upper_bound; lia.
Qed.

(** Truncating division is additive up to one unit. *)
Lemma div_add_trunc a b m :
  0 <= a -> 0 <= b -> 0 < m ->
  0 <= (a + b) / m - a / m - b / m <= 1.
Proof.
  intros Ha Hb Hm.
  pose proof (Z.div_mod a m ltac:(lia)).
  pose proof (Z.div_mod b m ltac:(lia)).
  pose proof (Z.div_mod (a + b) m ltac:(lia)).
  pose proof (Z.mod_pos_bound a m Hm).
  pose proof (Z.mod_pos_bound b m Hm).
  pose proof (Z.mod_pos_bound (a + b) m Hm).
  nia.
Qed.

End Int64Facts.

(** ** The drift-corrected clock *)

Module ClockProps.
Import Int64 Int64Facts Clock.
Local Open Scope Z_scope.

(** The calibration of the design document's scenario: steady rate 1.0,
    transitional rate 0, boundary 1000, last seen at raw 500. *)
Definition scenario : vdso_dat :=
  {| clock_src := VDSO_CLOCK_SYSCALL;
     platform_has_rdtscp := false;
     rtc_offset := 0;
     temp_cal := 0;
     cal := 0x100000000;
     sync_complete := 1000;
     last_raw := 500;
     last_drift := 0 |}.

Lemma scenario_wf : wf_vdso scenario.
Proof. split; unfold in_u64, in_s64, modulus, half_modulus; simpl; lia. Defined.

Example scenario_before_boundary :
  clock_get_drift (set_last scenario 0 0) 500 = 0.
Proof. reflexivity. Qed.

Example scenario_past_boundary : 2000 + clock_get_drift scenario 2000 = 3000.
Proof. reflexivity. Qed.

(** *** One integration step *)

(** The code's multiply-shift in closed form: the product is cut to 64
    bits before the shift. *)
Definition scale64 (interval coeff : Z) : Z :=
  let m := Z.shiftr (u64 (interval * Z.abs coeff)) 32 in
  if coeff <? 0 then - m else m.

Lemma clock_calculate_drift_scale64 interval c :
  in_s64 c -> clock_calculate_drift interval c = scale64 interval c.
Proof.
  unfold in_s64, half_modulus. intros Hc.
  unfold clock_calculate_drift, scale64, CLOCK_CALIBR_BITS.
  destruct (Z.leb_spec 0 c) as [Hpos | Hneg].
  - destruct (Z.ltb_spec c 0) as [? | _]; [lia |].
    rewrite (u64_id c) by (unfold in_u64, modulus; lia).
    rewrite Z.abs_eq by lia.
    apply s64_id. pose proof (shiftr32_u64 (interval * c)).
    unfold in_s64, half_modulus. lia.
  - destruct (Z.ltb_spec c 0) as [_ | ?]; [| lia].
    rewrite u64_s64, (u64_id (- c)) by (unfold in_u64, modulus; lia).
    rewrite Z.abs_neq by lia.
    rewrite s64_u64. apply s64_id.
    pose proof (shiftr32_u64 (interval * - c)).
    unfold in_s64, half_modulus. lia.
Qed.

(** The multiply-shift on exact integers. *)
Definition scale_exact (x c : Z) : Z :=
  if c <? 0 then - (x * Z.abs c / 2 ^ 32) else x * Z.abs c / 2 ^ 32.

Lemma clock_calculate_drift_exact x c :
  in_s64 c -> 0 <= x -> x * Z.abs c < modulus ->
  clock_calculate_drift x c = scale_exact x c.
Proof.
  intros Hc Hx Hprod.
  rewrite clock_calculate_drift_scale64 by assumption.
  unfold scale64, scale_exact.
  rewrite u64_id by (unfold in_u64; split; [apply Z.mul_nonneg_nonneg |]; lia).
  rewrite Z.shiftr_div_pow2 by lia. reflexivity.
Qed.

Lemma scale_exact_bound x c :
  0 <= x -> x * Z.abs c < modulus -> Z.abs (scale_exact x c) < 2 ^ 32.
Proof.
  unfold modulus, scale_exact. intros Hx Hprod.
  assert (0 <= x * Z.abs c / 2 ^ 32 < 2 ^ 32) as Hq.
  { split; [apply Z.div_pos | apply Z.div_lt_upper_bound]; nia. }
  destruct (c <? 0); lia.
Qed.

Lemma scale_exact_split x y c :
  0 <= x -> 0 <= y ->
  Z.abs (scale_exact (x + y) c - scale_exact x c - scale_exact y c) <= 1.
Proof.
  intros Hx Hy. unfold scale_exact.
  pose proof (div_add_trunc (x * Z.abs c) (y * Z.abs c) (2 ^ 32)
                ltac:(nia) ltac:(nia) ltac:(lia)) as H.
  replace ((x + y) * Z.abs c) with (x * Z.abs c + y * Z.abs c) by ring.
  destruct (c <? 0); lia.
Qed.

Lemma sub_product_bound x X c :
  0 <= x <= X -> X * Z.abs c < modulus -> x * Z.abs c < modulus.
Proof. intros Hx HX. pose proof (Z.abs_nonneg c). nia. Qed.

(** One integration step without wrap-around. *)
Lemma drift_step_exact D x c :
  in_s64 c -> 0 <= x < modulus -> x * Z.abs c < modulus ->
  Z.abs D <= 2 ^ 62 + 2 ^ 33 ->
  s64 (D + clock_calculate_drift (u64 x) c) = D + scale_exact x c.
Proof.
  intros Hc Hx Hprod HD.
  rewrite u64_id by exact Hx.
  rewrite clock_calculate_drift_exact by (assumption || lia).
  pose proof (scale_exact_bound x c ltac:(lia) Hprod).
  apply s64_id. unfold in_s64, half_modulus. lia.
Qed.

(** *** The three-case rule *)



(** Rate one, everything past the boundary, last seen at raw 1. *)
Definition unit_rate : vdso_dat :=
  {| clock_src := VDSO_CLOCK_SYSCALL;
     platform_has_rdtscp := false;
     rtc_offset := 0;
     temp_cal := 0x100000000;
     cal := 0x100000000;
     sync_complete := 0;
     last_raw := 1;
     last_drift := 0 |}.







(** *** Path dependence of the integration *)

(** The claim of the design document, for a calibration [d] last
    updated at [last_raw d] and readings [r2 < r3] after it. *)
Definition path_independent (d : vdso_dat) (r2 r3 : Z) : Prop :=
  clock_get_drift (snd (clock_update_drift d r2)) r3 = clock_get_drift d r3.

(** Rate one half, everything past the boundary, last seen at raw 1. *)
Definition half_rate : vdso_dat :=
  {| clock_src := VDSO_CLOCK_SYSCALL;
     platform_has_rdtscp := false;
     rtc_offset := 0;
     temp_cal := 0x80000000;
     cal := 0x80000000;
     sync_complete := 0;
     last_raw := 1;
     last_drift := 0 |}.

Lemma half_rate_wf : wf_vdso half_rate.
Proof. split; unfold in_u64, in_s64, modulus, half_modulus; simpl; lia. Defined.

(** C6, as stated, fails: at rate one half the two half-units of the
    steps from raw 1 to 2 and from 2 to 3 are both truncated away, while
    the step from 1 to 3 yields one unit. *)
Lemma drift_path_dependent :
  wf_vdso half_rate /\ last_raw half_rate < 2 < 3 /\
  clock_get_drift half_rate 3 = 1 /\
  clock_get_drift (snd (clock_update_drift half_rate 2)) 3 = 0 /\
  ~ path_independent half_rate 2 3.
Proof.
  split; [exact half_rate_wf |].
  split; [simpl; lia |].
  split; [reflexivity |].
  split; [reflexivity |].
  unfold path_independent. vm_compute. discriminate.
Qed.

(** When a product leaves 64 bits the two paths are far apart: at rate
    one, the step over [2 ^ 32] raw units wraps to a drift of zero. *)
Lemma drift_path_dependent_overflow :
  clock_get_drift unit_rate (1 + 2 ^ 32) = 0 /\
  clock_get_drift (snd (clock_update_drift unit_rate (1 + 2 ^ 31))) (1 + 2 ^ 32)
  = 2 ^ 32.
Proof. split; reflexivity. Qed.

(** C6, amended.  For raw readings [last_raw d < r2 < r3] whose products
    with the coefficients fit in 64 bits, the drift at [r3] computed
    directly and the drift computed through an update at [r2] differ by
    at most one unit (the truncation of the multiply-shift). *)
Theorem drift_path_independent_up_to_truncation (d : vdso_dat) (r2 r3 : Z) :
  wf_vdso d ->
  last_raw d < r2 -> r2 < r3 -> r3 < modulus ->
  (r3 - last_raw d) * Z.abs (temp_cal d) < modulus ->
  (r3 - last_raw d) * Z.abs (cal d) < modulus ->
  Z.abs (last_drift d) <= 2 ^ 62 ->
  Z.abs (clock_get_drift d r3
         - clock_get_drift (snd (clock_update_drift d r2)) r3) <= 1.
Proof.
  intros [_ Ht Hc Hb Hr1 _] H12 H23 H3 HT HS HD.
  unfold in_u64 in Hb, Hr1.
  unfold clock_update_drift, clock_get_drift; simpl.
  destruct ((temp_cal d =? 0) && (cal d =? 0)); [simpl; lia |].
  set (b := sync_complete d) in *. set (r1 := last_raw d) in *.
  set (D := last_drift d) in *. set (T := temp_cal d) in *. set (S := cal d) in *.
  assert (forall x, 0 <= x <= r3 - r1 -> x * Z.abs T < modulus) as HTx
    by (intros; eapply sub_product_bound; eassumption).
  assert (forall x, 0 <= x <= r3 - r1 -> x * Z.abs S < modulus) as HSx
    by (intros; eapply sub_product_bound; eassumption).
  assert (forall x c, 0 <= x <= r3 - r1 -> x * Z.abs c < modulus ->
            Z.abs (scale_exact x c) < 2 ^ 32) as Hbound
    by (intros; apply scale_exact_bound; lia).
  destruct (Z.ltb_spec b r3) as [Hb3 | Hb3];
    destruct (Z.ltb_spec b r1) as [Hb1 | Hb1];
    destruct (Z.ltb_spec b r2) as [Hb2 | Hb2]; try lia.
  - (* all readings past the boundary *)
    rewrite (drift_step_exact D (r2 - r1)) by (auto with zarith; lia).
    pose proof (Hbound (r2 - r1) S ltac:(lia) ltac:(auto with zarith)).
    rewrite !drift_step_exact by (auto with zarith; lia).
    pose proof (scale_exact_split (r2 - r1) (r3 - r2) S ltac:(lia) ltac:(lia)) as Hs.
    replace (r2 - r1 + (r3 - r2)) with (r3 - r1) in Hs by ring. lia.
  - (* the boundary lies between the first two readings *)
    rewrite (drift_step_exact D (b - r1)) by (auto with zarith; lia).
    pose proof (Hbound (b - r1) T ltac:(lia) ltac:(auto with zarith)).
    rewrite (drift_step_exact _ (r2 - b)) by (auto with zarith; lia).
    pose proof (Hbound (r2 - b) S ltac:(lia) ltac:(auto with zarith)).
    rewrite !drift_step_exact by (auto with zarith; lia).
    pose proof (scale_exact_split (r2 - b) (r3 - r2) S ltac:(lia) ltac:(lia)) as Hs.
    replace (r2 - b + (r3 - r2)) with (r3 - b) in Hs by ring. lia.
  - (* the boundary lies between the last two readings *)
    rewrite (drift_step_exact D (r2 - r1)) by (auto with zarith; lia).
    pose proof (Hbound (r2 - r1) T ltac:(lia) ltac:(auto with zarith)).
    rewrite (drift_step_exact D (b - r1)) by (auto with zarith; lia).
    pose proof (Hbound (b - r1) T ltac:(lia) ltac:(auto with zarith)).
    rewrite (drift_step_exact _ (b - r2)) by (auto with zarith; lia).
    pose proof (Hbound (b - r2) T ltac:(lia) ltac:(auto with zarith)).
    rewrite !drift_step_exact by (auto with zarith; lia).
    pose proof (scale_exact_split (r2 - r1) (b - r2) T ltac:(lia) ltac:(lia)) as Hs.
    replace (r2 - r1 + (b - r2)) with (b - r1) in Hs by ring. lia.
  - (* all readings up to the boundary *)
    rewrite (drift_step_exact D (r2 - r1)) by (auto with zarith; lia).
    pose proof (Hbound (r2 - r1) T ltac:(lia) ltac:(auto with zarith)).
    rewrite !drift_step_exact by (auto with zarith; lia).
    pose proof (scale_exact_split (r2 - r1) (r3 - r2) T ltac:(lia) ltac:(lia)) as Hs.
    replace (r2 - r1 + (r3 - r2)) with (r3 - r1) in Hs by ring. lia.
Qed.

Lemma drift_path_independent_up_to_truncation_witness :
  Z.abs (clock_get_drift half_rate 3
         - clock_get_drift (snd (clock_update_drift half_rate 2)) 3) <= 1.
Proof.
  apply (drift_path_independent_up_to_truncation half_rate 2 3).
  - exact half_rate_wf.
  - simpl; lia.
  - lia.
  - unfold modulus; lia.
  - unfold modulus; simpl; lia.
  - unfold modulus; simpl; lia.
  - simpl; lia.
Defined.

(** *** Time queries and (re)registration *)

(** A time query updates the calibration state: the last raw reading
    and the last drift are those of the current reading. *)
Definition calibration_updated {hw : Type}
    (id : clock_id) (e : hw) (s : clock_state hw) : Prop :=
  let raw := apply_clock_now hw (platform_monotonic_now hw s) e in
  let d' := vdso hw (snd (now hw id e s)) in
  last_raw d' = raw /\ last_drift d' = clock_get_drift (vdso hw s) raw.

(** A source that reads 5, over the scenario's calibration. *)
Definition reads_five : clock_state unit :=
  {| platform_monotonic_now := fun _ => 5; vdso := scenario |}.

(** C7, as stated, fails: a raw-monotonic query returns before the
    update and leaves the last raw reading at 500. *)
Lemma now_raw_does_not_update :
  ~ calibration_updated CLOCK_ID_MONOTONIC_RAW tt reads_five.
Proof. unfold calibration_updated. vm_compute. intros [H _]. discriminate H. Qed.

(** C7, amended.  A time query with any identifier other than the
    raw-monotonic one sets the last raw reading and the last drift from
    the current raw counter reading, and changes nothing else of the
    calibration state. *)
Theorem now_updates_calibration {hw : Type}
    (id : clock_id) (e : hw) (s : clock_state hw) :
  id <> CLOCK_ID_MONOTONIC_RAW ->
  calibration_updated id e s /\
  let raw := apply_clock_now hw (platform_monotonic_now hw s) e in
  vdso hw (snd (now hw id e s))
  = set_last (vdso hw s) (clock_get_drift (vdso hw s) raw) raw.
Proof.
  intros Hid. unfold calibration_updated, now.
  destruct (decide (id = CLOCK_ID_MONOTONIC_RAW)) as [? | _]; [contradiction |].
  unfold clock_update_drift.
  destruct id; simpl; auto.
Qed.

Lemma now_updates_calibration_witness :
  calibration_updated CLOCK_ID_MONOTONIC tt reads_five /\
  vdso unit (snd (now unit CLOCK_ID_MONOTONIC tt reads_five))
  = set_last scenario (clock_get_drift scenario 5) 5.
Proof.
  apply (now_updates_calibration CLOCK_ID_MONOTONIC tt reads_five).
  discriminate.
Defined.

(** A raw-monotonic query leaves the whole state as it is. *)
Lemma now_raw_unchanged {hw : Type} (e : hw) (s : clock_state hw) :
  now hw CLOCK_ID_MONOTONIC_RAW e s
  = (apply_clock_now hw (platform_monotonic_now hw s) e, s).
Proof. reflexivity. Qed.

(** C9. (Re)registering the monotonic source installs it, resets the
    calibration to neutral (both coefficients, the boundary, the last
    raw reading and the last drift are zero) and recomputes the
    wall-clock offset: [(rtc_seconds << 32)] minus the reading of the
    new source, on 64 bits, or zero when the real-time clock reports
    zero. *)
Theorem register_platform_clock_now_resets {hw : Type}
    (rtc_gettimeofday : hw -> Z) (cn : clock_now hw) (id : vdso_clock_id)
    (e : hw) (s : clock_state hw) :
  let s' := register_platform_clock_now hw rtc_gettimeofday cn id e s in
  let rt := u64 (rtc_gettimeofday e) in
  let raw_at_init := apply_clock_now hw cn e in
  platform_monotonic_now hw s' = cn /\
  clock_src (vdso hw s') = id /\
  temp_cal (vdso hw s') = 0 /\
  cal (vdso hw s') = 0 /\
  sync_complete (vdso hw s') = 0 /\
  last_raw (vdso hw s') = 0 /\
  last_drift (vdso hw s') = 0 /\
  rtc_offset (vdso hw s')
  = (if rt =? 0 then 0 else (rt * 2 ^ 32 - raw_at_init) mod 2 ^ 64).
Proof.
  simpl. repeat (split; [reflexivity |]).
  destruct (u64 (rtc_gettimeofday e) =? 0); [reflexivity |].
  rewrite u64_sub_l, Z.shiftl_mul_pow2 by lia. reflexivity.
Qed.

(** After a reset every drift is zero, whatever is read. *)
Lemma reset_clock_neutral {hw : Type}
    (rtc_gettimeofday : hw -> Z) (e : hw) (s : clock_state hw) (raw : Z) :
  clock_get_drift (vdso hw (reset_clock_vdso_dat hw rtc_gettimeofday e s)) raw = 0.
Proof. reflexivity. Qed.

(** The real-time identifiers of [clock.h]. *)
Definition real_time (id : clock_id) : bool :=
  match id with
  | CLOCK_ID_REALTIME | CLOCK_ID_REALTIME_COARSE | CLOCK_ID_REALTIME_ALARM => true
  | _ => false
  end.

(** C10, amended.  When both drift coefficients are zero the drift of
    any raw reading is zero, whatever the stored last drift and last raw
    reading; a time query then returns the raw counter plus the
    wall-clock offset (on 64 bits) for [CLOCK_ID_REALTIME] and
    [CLOCK_ID_REALTIME_COARSE], and the raw counter for every other
    identifier: the monotonic ones, and [CLOCK_ID_REALTIME_ALARM] too. *)
Theorem zero_calibration_no_drift {hw : Type}
    (id : clock_id) (e : hw) (s : clock_state hw) (r : Z) :
  temp_cal (vdso hw s) = 0 ->
  cal (vdso hw s) = 0 ->
  let raw := apply_clock_now hw (platform_monotonic_now hw s) e in
  clock_get_drift (vdso hw s) r = 0 /\
  fst (now hw id e s)
  = match id with
    | CLOCK_ID_REALTIME | CLOCK_ID_REALTIME_COARSE =>
        u64 (raw + rtc_offset (vdso hw s))
    | _ => raw
    end.
Proof.
  intros Ht Hc raw.
  assert (forall x, clock_get_drift (vdso hw s) x = 0) as Hz.
  { intros x. unfold clock_get_drift. rewrite Ht, Hc. reflexivity. }
  split; [apply Hz |].
  assert (u64 (raw + 0) = raw) as Hraw.
  { rewrite Z.add_0_r. unfold raw, apply_clock_now.
    apply u64_id, u64_range. }
  unfold now, clock_update_drift. fold raw. rewrite Hz.
  destruct id; simpl; rewrite ?Hraw; reflexivity.
Qed.

(** A source that reads 7, with a wall-clock offset of 100 and stale
    last values under a zero calibration. *)
Definition uncalibrated : clock_state unit :=
  {| platform_monotonic_now := fun _ => 7;
     vdso := {| clock_src := VDSO_CLOCK_SYSCALL;
                platform_has_rdtscp := false;
                rtc_offset := 100;
                temp_cal := 0;
                cal := 0;
                sync_complete := 50;
                last_raw := 3;
                last_drift := 11 |} |}.

Lemma zero_calibration_no_drift_witness :
  clock_get_drift (vdso unit uncalibrated) 60 = 0 /\
  fst (now unit CLOCK_ID_REALTIME tt uncalibrated) = u64 (7 mod 2 ^ 64 + 100).
Proof.
  apply (zero_calibration_no_drift CLOCK_ID_REALTIME tt uncalibrated 60);
    reflexivity.
Defined.

(** C10, as stated, fails for the third real-time identifier: under a
    zero calibration with a wall-clock offset of 100, a query with
    [CLOCK_ID_REALTIME_ALARM] at raw counter 7 returns 7, not 107; the
    offset is added in the [CLOCK_ID_REALTIME] and
    [CLOCK_ID_REALTIME_COARSE] cases only. *)
Lemma realtime_alarm_without_offset :
  temp_cal (vdso unit uncalibrated) = 0 /\
  cal (vdso unit uncalibrated) = 0 /\
  real_time CLOCK_ID_REALTIME_ALARM = true /\
  apply_clock_now unit (platform_monotonic_now unit uncalibrated) tt = 7 /\
  rtc_offset (vdso unit uncalibrated) = 100 /\
  fst (now unit CLOCK_ID_REALTIME_ALARM tt uncalibrated) = 7 /\
  fst (now unit CLOCK_ID_REALTIME_ALARM tt uncalibrated) <> u64 (7 + 100).
Proof.
  repeat (split; [reflexivity |]). vm_compute. discriminate.
Qed.

End ClockProps.

(** ** Interrupt registration and dispatch *)

Module InterruptProps.
Import Int64 Int64Facts Interrupt.
Local Open Scope Z_scope.

(** Membership in the enable and pending sets after an update. *)
Ltac line_sets :=
  rewrite ?elem_of_union, ?elem_of_difference, ?elem_of_singleton;
  intuition congruence.

Section Registry.

Context {world : Type}.

Implicit Types (s : machine world) (l : list inthandler) (v i : Z).

(** *** Sequencing and frame access *)

Lemma bind_Ret {A B} (m : M world A) (k : A -> M world B) s a s' :
  m s = Ret a s' -> bind m k s = k a s'.
Proof. unfold bind. intros ->. reflexivity. Qed.

Lemma bind_Exit {A B} (m : M world A) (k : A -> M world B) s x s' :
  m s = Exit x s' -> bind m k s = Exit x s'.
Proof. unfold bind. intros ->. reflexivity. Qed.

Lemma bind_Undef {A B} (m : M world A) (k : A -> M world B) s :
  m s = Undef -> bind m k s = Undef.
Proof. unfold bind. intros ->. reflexivity. Qed.

(** The machine after [f[slot] = x] on the frame [fr] at [f]. *)
Definition stored (f : Z) (fr : frame) (slot : frame_slot) (x : Z) s
    : machine world :=
  mk_machine world (handlers s) (int_general s) (gic s) (cpu s)
    (<[f := fn_insert slot x fr]> (frames s)) (env s) (trace s).

Lemma frame_load_spec s f fr :
  frames s !! f = Some fr -> frame_load f s = Ret fr s.
Proof. unfold frame_load, bind, get. intros ->. reflexivity. Qed.

Lemma frame_get_spec s f fr slot :
  frames s !! f = Some fr -> frame_get f slot s = Ret (fr slot) s.
Proof.
  intros H. unfold frame_get.
  rewrite (bind_Ret _ _ _ _ _ (frame_load_spec s f fr H)). reflexivity.
Qed.

Lemma frame_set_spec s f fr slot x :
  frames s !! f = Some fr -> frame_set f slot x s = Ret tt (stored f fr slot x s).
Proof.
  intros H. unfold frame_set.
  rewrite (bind_Ret _ _ _ _ _ (frame_load_spec s f fr H)). reflexivity.
Qed.

(** *** The handler table *)

(** The table [handlers] has [MAX_INTERRUPT_VECTORS] entries, as
    [init_interrupts] allocates it. *)
Definition wf_machine s : Prop :=
  length (handlers s) = Z.to_nat MAX_INTERRUPT_VECTORS.

(** The handlers registered for vector [v], in list order. *)
Definition registered s v l : Prop :=
  0 <= v /\ handlers s !! Z.to_nat v = Some l.

Lemma registered_exists s v :
  wf_machine s -> 0 <= v < MAX_INTERRUPT_VECTORS -> exists l, registered s v l.
Proof.
  unfold wf_machine, registered, MAX_INTERRUPT_VECTORS. intros Hwf Hv.
  destruct (lookup_lt_is_Some_2 (handlers s) (Z.to_nat v)) as [l Hl]; [lia |].
  exists l. split; [lia | exact Hl].
Qed.

Lemma registered_in_range s v l :
  wf_machine s -> registered s v l -> 0 <= v < MAX_INTERRUPT_VECTORS.
Proof.
  unfold wf_machine, registered, MAX_INTERRUPT_VECTORS. intros Hwf [Hv Hl].
  apply lookup_lt_Some in Hl. lia.
Qed.

Lemma handlers_at_registered s v l :
  registered s v l -> handlers_at v s = Ret l s.
Proof.
  intros [Hv Hl]. unfold handlers_at, bind, get, ret.
  destruct (Z.ltb_spec v 0); [lia |]. rewrite Hl. reflexivity.
Qed.

(** The controller after the first registration on line [v]. *)
Definition line_opened v (g : gic_state) : gic_state :=
  mk_gic ({[v]} ∪ gic_enabled g) (gic_pending g ∖ {[v]})
         (<[v := 0]> (gic_priority g)) (gic_incoming g).

(** The machine after [register_interrupt] has appended [h] to the
    handlers [l] of vector [v]. *)
Definition appended v h l s : machine world :=
  mk_machine world
    (<[Z.to_nat v := l ++ [h]]> (handlers s))
    (int_general s - sizeof_inthandler)
    (if list_empty l then line_opened v (gic s) else gic s)
    (cpu s) (frames s) (env s)
    (trace s ++ if list_empty l
                then [EvGicSetPriority v 0; EvGicClearPending v; EvGicEnable v]
                else []).

Lemma register_interrupt_spec s v th nm l :
  registered s v l -> sizeof_inthandler <= int_general s ->
  register_interrupt v th nm s = Ret tt (appended v (mk_inthandler th nm) l s).
Proof.
  intros Hreg Hmem. unfold register_interrupt.
  unfold bind at 1. rewrite (handlers_at_registered s v l Hreg).
  destruct s as [hs heap g c fs w tr]. destruct Hreg as [Hv Hl].
  simpl in Hmem, Hl.
  unfold bind at 1. unfold allocate, bind at 1, get. cbn [int_general].
  destruct (Z.leb_spec sizeof_inthandler heap) as [_ | ?]; [| lia].
  unfold bind at 1. unfold set_int_general. cbn.
  unfold list_insert_before, bind at 1. unfold bind at 1.
  rewrite (handlers_at_registered _ v l) by (split; [exact Hv | exact Hl]).
  unfold set_handlers_at, bind at 1, get, set_handlers. cbn.
  unfold appended. cbn.
  destruct l; cbn.
  - unfold log, line_opened. cbn. rewrite <- !app_assoc. reflexivity.
  - rewrite app_nil_r. reflexivity.
Qed.

(** X23. When the heap cannot hold one more handler record,
    [register_interrupt] fails its assertion before it touches the
    handler list or the controller: the machine is left as it was. *)
Lemma register_interrupt_no_memory s v th nm l :
  registered s v l -> int_general s < sizeof_inthandler ->
  register_interrupt v th nm s = Exit (ExAssert "h != INVALID_ADDRESS") s.
Proof.
  intros Hreg Hmem. unfold register_interrupt.
  unfold bind at 1. rewrite (handlers_at_registered s v l Hreg).
  unfold bind at 1. unfold allocate, bind at 1, get.
  destruct (Z.leb_spec sizeof_inthandler (int_general s)) as [? | _]; [lia |].
  reflexivity.
Qed.

(** The controller after line [v] has been disabled. *)
Definition line_closed v (g : gic_state) : gic_state :=
  mk_gic (gic_enabled g ∖ {[v]}) (gic_pending g) (gic_priority g)
         (gic_incoming g).

(** The machine after the first statement of [unregister_interrupt]. *)
Definition disabled v s : machine world :=
  mk_machine world (handlers s) (int_general s) (line_closed v (gic s))
    (cpu s) (frames s) (env s) (trace s ++ [EvGicDisable v]).

(** The machine after [unregister_interrupt] has released the handlers
    [l] of vector [v]. *)
Definition removed v l s : machine world :=
  mk_machine world
    (<[Z.to_nat v := []]> (handlers s))
    (int_general s + sizeof_inthandler * Z.of_nat (length l))
    (line_closed v (gic s))
    (cpu s) (frames s) (env s) (trace s ++ [EvGicDisable v]).

Lemma unregister_each_spec v l s :
  registered s v l ->
  unregister_each v l s
  = Ret tt (mk_machine world (<[Z.to_nat v := []]> (handlers s))
              (int_general s + sizeof_inthandler * Z.of_nat (length l))
              (gic s) (cpu s) (frames s) (env s) (trace s)).
Proof.
  revert s. induction l as [| h l IH]; intros [hs heap g c fs w tr] [Hv Hl];
    cbn in Hl.
  - cbn. rewrite list_insert_id by exact Hl.
    replace (heap + sizeof_inthandler * Z.of_nat 0) with heap by lia. reflexivity.
  - cbn [unregister_each]. unfold bind at 1. unfold list_delete, bind at 1.
    rewrite (handlers_at_registered _ v (h :: l)) by (split; assumption).
    unfold set_handlers_at, bind at 1, get, set_handlers. cbn.
    rewrite IH; cbn.
    + rewrite list_insert_insert_eq. do 2 f_equal. lia.
    + split; [exact Hv |]. cbn. apply list_lookup_insert_eq.
      eapply lookup_lt_Some. exact Hl.
Qed.

Lemma unregister_interrupt_spec s v l :
  registered s v l -> l <> [] ->
  unregister_interrupt v s = Ret tt (removed v l s).
Proof.
  intros Hreg Hne. unfold unregister_interrupt.
  unfold bind at 1. unfold gic_disable_int, bind at 1, get.
  unfold bind at 1. unfold set_gic, log. cbn.
  unfold bind at 1.
  rewrite (handlers_at_registered _ v l) by exact Hreg.
  destruct l as [| h l]; [contradiction |]. cbn [list_empty].
  unfold bind at 1. unfold ret at 1.
  rewrite unregister_each_spec by exact Hreg. reflexivity.
Qed.

Lemma unregister_interrupt_no_handler s v :
  registered s v [] ->
  unregister_interrupt v s
  = Exit (ExHalt "unregister_interrupt: no handler registered for vector %d" v)
         (disabled v s).
Proof.
  intros Hreg. unfold unregister_interrupt.
  unfold bind at 1. unfold gic_disable_int, bind at 1, get.
  unfold bind at 1. unfold set_gic, log. cbn.
  unfold bind at 1.
  rewrite (handlers_at_registered _ v []) by exact Hreg.
  reflexivity.
Qed.

(** *** The enable bit follows the handler list *)

(** The line of a vector is enabled exactly when handlers are registered
    for it. *)
Definition line_inv s : Prop :=
  forall v l, registered s v l -> (v ∈ gic_enabled (gic s) <-> l <> []).

Lemma registered_same s s' v l :
  handlers s' = handlers s -> registered s' v l -> registered s v l.
Proof. unfold registered. intros ->. tauto. Qed.

Lemma registered_insert s s' v v' l l' :
  handlers s' = <[Z.to_nat v := l]> (handlers s) ->
  0 <= v -> registered s' v' l' ->
  (v' = v /\ l' = l) \/ (v' <> v /\ registered s v' l').
Proof.
  unfold registered. intros -> Hv [Hv' Hl'].
  destruct (decide (v' = v)) as [-> | Hne].
  - left. split; [reflexivity |].
    rewrite list_lookup_insert_eq in Hl'.
    + congruence.
    + apply lookup_lt_Some in Hl'. rewrite length_insert in Hl'. exact Hl'.
  - right. split; [exact Hne |]. split; [exact Hv' |].
    rewrite list_lookup_insert_ne in Hl' by lia. exact Hl'.
Qed.

Lemma appended_line_inv s v h l :
  line_inv s -> registered s v l -> line_inv (appended v h l s).
Proof.
  intros Hinv Hreg v' l' Hreg'.
  destruct (registered_insert s (appended v h l s) v v' (l ++ [h]) l'
              eq_refl (proj1 Hreg) Hreg')
    as [[-> ->] | [Hne Hold]].
  - split; [intros _; destruct l; discriminate |]. intros _.
    specialize (Hinv v l Hreg). destruct l; cbn.
    + line_sets.
    + apply Hinv. discriminate.
  - rewrite <- (Hinv v' l' Hold). destruct l; cbn; [| reflexivity].
    line_sets.
Qed.

Lemma removed_line_inv s v l :
  line_inv s -> registered s v l -> line_inv (removed v l s).
Proof.
  intros Hinv Hreg v' l' Hreg'.
  destruct (registered_insert s (removed v l s) v v' [] l'
              eq_refl (proj1 Hreg) Hreg')
    as [[-> ->] | [Hne Hold]]; cbn.
  - line_sets.
  - rewrite <- (Hinv v' l' Hold). line_sets.
Qed.

Lemma disabled_line_inv s v :
  line_inv s -> registered s v [] -> line_inv (disabled v s).
Proof.
  intros Hinv Hreg v' l' Hreg'. cbn.
  apply (registered_same s) in Hreg'; [| reflexivity].
  destruct (decide (v' = v)) as [-> | Hne].
  - assert (l' = []) as -> by (destruct Hreg, Hreg'; congruence).
    line_sets.
  - rewrite <- (Hinv v' l' Hreg'). line_sets.
Qed.

Lemma appended_registered s v h l :
  wf_machine s -> registered s v l ->
  wf_machine (appended v h l s) /\ registered (appended v h l s) v (l ++ [h]).
Proof.
  unfold wf_machine, registered. intros Hwf [Hv Hl]. cbn.
  rewrite length_insert. split; [exact Hwf |]. split; [exact Hv |].
  apply list_lookup_insert_eq. eapply lookup_lt_Some. exact Hl.
Qed.

Lemma removed_registered s v l :
  wf_machine s -> registered s v l ->
  wf_machine (removed v l s) /\ registered (removed v l s) v [].
Proof.
  unfold wf_machine, registered. intros Hwf [Hv Hl]. cbn.
  rewrite length_insert. split; [exact Hwf |]. split; [exact Hv |].
  apply list_lookup_insert_eq. eapply lookup_lt_Some. exact Hl.
Qed.

Lemma line_opened_facts v (g : gic_state) :
  v ∈ gic_enabled (line_opened v g) /\
  (v ∉ gic_pending (line_opened v g)) /\
  gic_priority (line_opened v g) !! v = Some 0.
Proof.
  cbn. split; [line_sets |]. split; [line_sets |]. apply lookup_insert_eq.
Qed.

(** C3. The line of a vector is enabled at the controller exactly when
    its handler sequence is non-empty, and registration keeps it so:
    [register_interrupt] appends the handler and, when the vector had
    none, sets the priority, clears the pending state and enables the
    line, in this order, while it leaves the controller alone when
    handlers exist; [unregister_interrupt] first disables the line and
    then removes all handlers; registering again after that enables the
    line with the pending state cleared. *)
Theorem line_enabled_iff_handlers s v l th nm :
  wf_machine s -> line_inv s -> registered s v l ->
  sizeof_inthandler <= int_general s ->
  let h := mk_inthandler th nm in
  (exists s1,
     register_interrupt v th nm s = Ret tt s1 /\
     line_inv s1 /\ registered s1 v (l ++ [h]) /\
     (l = [] ->
      trace s1 = trace s ++ [EvGicSetPriority v 0; EvGicClearPending v;
                             EvGicEnable v] /\
      v ∈ gic_enabled (gic s1) /\ (v ∉ gic_pending (gic s1)) /\
      gic_priority (gic s1) !! v = Some 0) /\
     (l <> [] -> gic s1 = gic s /\ trace s1 = trace s)) /\
  (l <> [] ->
   exists s2,
     unregister_interrupt v s = Ret tt s2 /\
     line_inv s2 /\ registered s2 v [] /\
     (v ∉ gic_enabled (gic s2)) /\
     trace s2 = trace s ++ [EvGicDisable v] /\
     exists s3,
       register_interrupt v th nm s2 = Ret tt s3 /\
       line_inv s3 /\ registered s3 v [h] /\
       v ∈ gic_enabled (gic s3) /\ (v ∉ gic_pending (gic s3))) /\
  (l = [] ->
   exists fmt s2,
     unregister_interrupt v s = Exit (ExHalt fmt v) s2 /\
     line_inv s2 /\ registered s2 v [] /\ (v ∉ gic_enabled (gic s2))).
Proof.
  intros Hwf Hinv Hreg Hmem h.
  split; [| split].
  - exists (appended v h l s).
    split; [apply register_interrupt_spec; assumption |].
    split; [apply appended_line_inv; assumption |].
    split; [apply (appended_registered s v h l Hwf Hreg) |].
    split.
    + intros ->. cbn [appended list_empty gic trace].
      split; [reflexivity |]. apply line_opened_facts.
    + intros Hne. destruct l; [contradiction |]. cbn.
      rewrite app_nil_r. split; reflexivity.
  - intros Hne. exists (removed v l s).
    destruct (removed_registered s v l Hwf Hreg) as [Hwf2 Hreg2].
    pose proof (removed_line_inv s v l Hinv Hreg) as Hinv2.
    split; [apply unregister_interrupt_spec; assumption |].
    split; [exact Hinv2 |]. split; [exact Hreg2 |].
    split; [cbn; line_sets |]. split; [reflexivity |].
    exists (appended v h [] (removed v l s)).
    split.
    { apply register_interrupt_spec; [exact Hreg2 |]. cbn.
      unfold sizeof_inthandler in *. lia. }
    split; [apply appended_line_inv; assumption |].
    split; [apply (appended_registered _ v h [] Hwf2 Hreg2) |].
    cbn [appended list_empty gic].
    split; apply line_opened_facts.
  - intros ->. eexists _, (disabled v s).
    split; [apply unregister_interrupt_no_handler; exact Hreg |].
    split; [apply disabled_line_inv; assumption |].
    split; [exact Hreg |]. cbn. line_sets.
Qed.

(** *** Registration order *)

(** Successive calls of [register_interrupt] on one vector. *)
Fixpoint register_each v (regs : list inthandler) : M world unit :=
  match regs with
  | [] => ret tt
  | h :: rest => bind (register_interrupt v (t h) (name h))
                      (fun _ => register_each v rest)
  end.

Lemma register_each_spec regs : forall s v l,
  wf_machine s -> registered s v l ->
  sizeof_inthandler * Z.of_nat (length regs) <= int_general s ->
  exists s1, register_each v regs s = Ret tt s1 /\ wf_machine s1 /\
             registered s1 v (l ++ regs) /\ (line_inv s -> line_inv s1).
Proof.
  induction regs as [| h regs IH]; intros s v l Hwf Hreg Hmem.
  - exists s. rewrite app_nil_r. auto.
  - cbn [register_each length] in *. unfold bind at 1.
    rewrite (register_interrupt_spec s v (t h) (name h) l Hreg)
      by (unfold sizeof_inthandler in *; lia).
    replace (mk_inthandler (t h) (name h)) with h by (destruct h; reflexivity).
    destruct (appended_registered s v h l Hwf Hreg) as [Hwf1 Hreg1].
    destruct (IH (appended v h l s) v (l ++ [h]) Hwf1 Hreg1) as (s1 & Hrun & Hwf2 & Hreg2 & Hinv2).
    { cbn. unfold sizeof_inthandler in *. lia. }
    exists s1. rewrite <- app_assoc in Hreg2. cbn in Hreg2.
    split; [exact Hrun |]. split; [exact Hwf2 |]. split; [exact Hreg2 |].
    intros Hinv. apply Hinv2, appended_line_inv; assumption.
Qed.

End Registry.

Section Dispatch.

Context {world : Type}.
Variable apply_thunk : thunk -> world -> world.

Implicit Types (s : machine world) (l : list inthandler) (v i : Z).

(** *** Dispatch *)

(** The machine after the traversal of [irq_handler] over [l]. *)
Definition invoked l s : machine world :=
  mk_machine world (handlers s) (int_general s) (gic s)
    (if list_empty l then cpu s
     else mk_cpuinfo (running_frame (cpu s))
                     (kernel_context_frame (cpu s)) cpu_interrupt)
    (frames s)
    (foldl (fun w h => apply_thunk (t h) w) (env s) l)
    (trace s ++ map (fun h => EvApply (t h)) l).

Lemma invoke_each_spec l s :
  invoke_each apply_thunk l s = Ret tt (invoked l s).
Proof.
  revert s. induction l as [| h l IH]; intros [hs heap g c fs w tr].
  - unfold invoked. simpl. rewrite app_nil_r. reflexivity.
  - simpl. unfold bind at 1. simpl. unfold bind at 1. simpl.
    rewrite IH. unfold invoked. simpl.
    rewrite <- app_assoc. simpl. destruct l; reflexivity.
Qed.

(** The machine after the body of the loop of [irq_handler] has served
    id [i] with handlers [l]. *)
Definition dispatched i l s : machine world :=
  let s' := invoked l s in
  mk_machine world (handlers s') (int_general s') (gic s') (cpu s')
    (frames s') (env s') (trace s' ++ [EvGicEoi i]).

Lemma irq_dispatch_spec s i l :
  registered s i l -> i < MAX_INTERRUPT_VECTORS -> l <> [] ->
  irq_dispatch apply_thunk i s = Ret tt (dispatched i l s).
Proof.
  intros Hreg Hi Hl. unfold irq_dispatch.
  destruct (Z.leb_spec MAX_INTERRUPT_VECTORS i) as [? | _]; [lia |].
  unfold bind at 1. unfold ret at 1.
  unfold bind at 1. rewrite (handlers_at_registered s i l Hreg).
  destruct l as [| h l]; [contradiction |]. cbn [list_empty].
  unfold bind at 1. unfold ret at 1.
  unfold bind at 1. rewrite invoke_each_spec.
  reflexivity.
Qed.

Lemma irq_dispatch_out_of_range s i :
  MAX_INTERRUPT_VECTORS <= i ->
  irq_dispatch apply_thunk i s
  = Exit (ExHalt "dispatched interrupt %d exceeds MAX_INTERRUPT_VECTORS" i) s.
Proof.
  intros Hi. unfold irq_dispatch.
  destruct (Z.leb_spec MAX_INTERRUPT_VECTORS i) as [_ | ?]; [| lia].
  reflexivity.
Qed.

Lemma irq_dispatch_no_handler s i :
  registered s i [] -> i < MAX_INTERRUPT_VECTORS ->
  irq_dispatch apply_thunk i s = Exit (ExHalt "no handler for interrupt %d" i) s.
Proof.
  intros Hreg Hi. unfold irq_dispatch.
  destruct (Z.leb_spec MAX_INTERRUPT_VECTORS i) as [? | _]; [lia |].
  unfold bind at 1. unfold ret at 1.
  unfold bind at 1. rewrite (handlers_at_registered s i [] Hreg).
  reflexivity.
Qed.

(** C1. After handlers have been registered on a vector (any number of
    them, on top of those already there, N >= 1 in all), one dispatch of
    the vector's id applies all N thunks, once each and in registration
    order, and then sends one end-of-interrupt for that id: the world is
    the one the N thunks leave when applied in that order, the trace
    gains the N applications and then the end-of-interrupt, the core is
    in the interrupt state, and nothing else of the machine changes. *)
Theorem irq_dispatch_in_registration_order s v old regs :
  wf_machine s -> registered s v old ->
  old ++ regs <> [] ->
  sizeof_inthandler * Z.of_nat (length regs) <= int_general s ->
  exists s1 s2,
    register_each v regs s = Ret tt s1 /\
    registered s1 v (old ++ regs) /\
    irq_dispatch apply_thunk v s1 = Ret tt s2 /\
    env s2 = foldl (fun w h => apply_thunk (t h) w) (env s1) (old ++ regs) /\
    trace s2 = trace s1 ++ map (fun h => EvApply (t h)) (old ++ regs)
                        ++ [EvGicEoi v] /\
    cpu s2 = mk_cpuinfo (running_frame (cpu s1)) (kernel_context_frame (cpu s1))
                        cpu_interrupt /\
    handlers s2 = handlers s1 /\ int_general s2 = int_general s1 /\
    gic s2 = gic s1 /\ frames s2 = frames s1.
Proof.
  intros Hwf Hreg Hne Hmem.
  destruct (register_each_spec regs s v old Hwf Hreg Hmem)
    as (s1 & Hrun & Hwf1 & Hreg1 & _).
  exists s1, (dispatched v (old ++ regs) s1).
  split; [exact Hrun |]. split; [exact Hreg1 |]. split.
  { apply irq_dispatch_spec; [exact Hreg1 | | exact Hne].
    apply (registered_in_range s1 v _ Hwf1 Hreg1). }
  split; [reflexivity |]. split.
  { cbn. rewrite <- app_assoc. reflexivity. }
  split; [| auto].
  cbn. destruct (old ++ regs); [contradiction | reflexivity].
Qed.

(** *** Fatal conditions *)

Definition halts {A} (o : outcome world A) : Prop :=
  exists fmt arg s', o = Exit (ExHalt fmt arg) s'.

Definition returns {A} (o : outcome world A) : Prop :=
  exists a s', o = Ret a s'.

Lemma returns_not_halts {A} (o : outcome world A) : returns o -> ~ halts o.
Proof. intros (a & s1 & ->) (fmt & arg & s2 & H). discriminate H. Qed.

(** C5. The body of the dispatch loop halts exactly when the id is
    outside the vector range or has no handler, and returns otherwise;
    [unregister_interrupt] halts exactly when the vector has no handler,
    which it finds out after it has disabled the line, and returns
    otherwise. *)
Theorem halt_conditions s i :
  wf_machine s -> 0 <= i ->
  (halts (irq_dispatch apply_thunk i s)
   <-> MAX_INTERRUPT_VECTORS <= i \/ registered s i []) /\
  (~ halts (irq_dispatch apply_thunk i s)
   -> returns (irq_dispatch apply_thunk i s)) /\
  (i < MAX_INTERRUPT_VECTORS ->
   (halts (unregister_interrupt i s) <-> registered s i []) /\
   (~ halts (unregister_interrupt i s) -> returns (unregister_interrupt i s)) /\
   (registered s i [] ->
    exists fmt s', unregister_interrupt i s = Exit (ExHalt fmt i) s' /\
                   (i ∉ gic_enabled (gic s')) /\
                   trace s' = trace s ++ [EvGicDisable i])).
Proof.
  intros Hwf Hi.
  assert (MAX_INTERRUPT_VECTORS <= i \/
          (i < MAX_INTERRUPT_VECTORS /\ registered s i []) \/
          (i < MAX_INTERRUPT_VECTORS /\ exists l, l <> [] /\ registered s i l))
    as Hcases.
  { destruct (Z.le_gt_cases MAX_INTERRUPT_VECTORS i) as [? | Hlt]; [left; exact H |].
    right. destruct (registered_exists s i Hwf ltac:(lia)) as [[| h l] Hreg].
    - left. auto.
    - right. split; [lia |]. exists (h :: l). split; [discriminate | exact Hreg]. }
  assert (forall l, l <> [] -> registered s i l -> ~ registered s i []) as Hexcl.
  { intros l Hne [_ H1] [_ H2]. congruence. }
  split; [| split].
  - destruct Hcases as [Hbig | [[Hlt Hnone] | [Hlt (l & Hne & Hreg)]]].
    + rewrite irq_dispatch_out_of_range by exact Hbig.
      split; [auto |]. intros _. eexists _, _, _. reflexivity.
    + rewrite irq_dispatch_no_handler by assumption.
      split; [auto |]. intros _. eexists _, _, _. reflexivity.
    + rewrite (irq_dispatch_spec s i l) by assumption.
      split.
      * intros (fmt & arg & s' & H). discriminate H.
      * intros [? | Hnone]; [lia |]. destruct (Hexcl l Hne Hreg Hnone).
  - destruct Hcases as [Hbig | [[Hlt Hnone] | [Hlt (l & Hne & Hreg)]]].
    + rewrite irq_dispatch_out_of_range by exact Hbig.
      intros H. destruct H. eexists _, _, _. reflexivity.
    + rewrite irq_dispatch_no_handler by assumption.
      intros H. destruct H. eexists _, _, _. reflexivity.
    + rewrite (irq_dispatch_spec s i l) by assumption.
      intros _. eexists _, _. reflexivity.
  - intros Hlt.
    destruct Hcases as [Hbig | [[_ Hnone] | [_ (l & Hne & Hreg)]]]; [lia | |].
    + rewrite unregister_interrupt_no_handler by exact Hnone.
      split; [| split].
      * split; [auto |]. intros _. eexists _, _, _. reflexivity.
      * intros H. destruct H. eexists _, _, _. reflexivity.
      * intros _. eexists _, _. split; [reflexivity |]. cbn.
        split; [| reflexivity]. line_sets.
    + rewrite (unregister_interrupt_spec s i l) by assumption.
      split; [| split].
      * split.
        -- intros (fmt & arg & s' & H). discriminate H.
        -- intros Hnone. destruct (Hexcl l Hne Hreg Hnone).
      * intros _. eexists _, _. reflexivity.
      * intros Hnone. destruct (Hexcl l Hne Hreg Hnone).
Qed.

(** *** The dispatch loop *)

Lemma irq_dispatch_gic s i a s' :
  irq_dispatch apply_thunk i s = Ret a s' -> gic s' = gic s.
Proof.
  unfold irq_dispatch.
  destruct (Z.leb_spec MAX_INTERRUPT_VECTORS i) as [Hbig | Hlt];
    [discriminate |].
  unfold bind at 1. unfold ret at 1. unfold bind at 1.
  unfold handlers_at at 1, bind at 1, get.
  destruct (i <? 0); [discriminate |].
  destruct (handlers s !! Z.to_nat i) as [[| h l] |] eqn:Hl;
    [discriminate | | discriminate].
  unfold ret at 1. cbn [list_empty]. unfold bind at 1. unfold ret at 1.
  unfold bind at 1. rewrite invoke_each_spec.
  intros [= _ <-]. reflexivity.
Qed.

Variable INTID_NO_PENDING : Z.

(** The machine after the controller has handed out its next id. *)
Definition popped (rest : list Z) s : machine world :=
  mk_machine world (handlers s) (int_general s)
    (mk_gic (gic_enabled (gic s)) (gic_pending (gic s))
            (gic_priority (gic s)) rest)
    (cpu s) (frames s) (env s) (trace s).

Lemma gic_dispatch_int_nil s :
  gic_incoming (gic s) = [] ->
  gic_dispatch_int INTID_NO_PENDING s = Ret INTID_NO_PENDING s.
Proof. unfold gic_dispatch_int, bind, get. intros ->. reflexivity. Qed.

Lemma gic_dispatch_int_cons s i rest :
  gic_incoming (gic s) = i :: rest ->
  gic_dispatch_int INTID_NO_PENDING s = Ret (u64 i) (popped rest s).
Proof. unfold gic_dispatch_int, bind, get. intros ->. reflexivity. Qed.

Lemma irq_loop_unfold n :
  irq_loop apply_thunk INTID_NO_PENDING n
  = bind (gic_dispatch_int INTID_NO_PENDING) (fun i =>
      if i =? INTID_NO_PENDING then ret tt
      else bind (irq_dispatch apply_thunk i) (fun _ =>
             match n with
             | O => undefined
             | S n' => irq_loop apply_thunk INTID_NO_PENDING n'
             end)).
Proof. destruct n; reflexivity. Qed.

(** The bound on the loop is never exhausted when it is at least the
    number of incoming ids: more makes no difference. *)
Lemma irq_loop_enough (ids : list Z) : forall n s,
  gic_incoming (gic s) = ids -> (length ids <= n)%nat ->
  irq_loop apply_thunk INTID_NO_PENDING n s
  = irq_loop apply_thunk INTID_NO_PENDING (length ids) s.
Proof.
  induction ids as [| i ids IH]; intros n s Hids Hn.
  - rewrite !irq_loop_unfold.
    rewrite !(bind_Ret _ _ _ _ _ (gic_dispatch_int_nil s Hids)).
    rewrite Z.eqb_refl. reflexivity.
  - rewrite !irq_loop_unfold.
    rewrite !(bind_Ret _ _ _ _ _ (gic_dispatch_int_cons s i ids Hids)).
    destruct (u64 i =? INTID_NO_PENDING); [reflexivity |].
    destruct (irq_dispatch apply_thunk (u64 i) (popped ids s))
      as [a s' | x s' |] eqn:Hd.
    + rewrite !(bind_Ret _ _ _ _ _ Hd).
      apply irq_dispatch_gic in Hd. cbn in Hd.
      destruct n as [| n]; [cbn in Hn; lia |]. cbn [length].
      apply IH; [rewrite Hd; reflexivity | cbn in Hn; lia].
    + rewrite !(bind_Exit _ _ _ _ _ Hd). reflexivity.
    + rewrite !(bind_Undef _ _ _ Hd). reflexivity.
Qed.

(** One pending id: [irq_handler] serves it, finds nothing more pending
    and leaves for the run loop. *)
Lemma irq_handler_single s v l :
  gic_incoming (gic s) = [v] -> v <> INTID_NO_PENDING ->
  registered s v l -> v < MAX_INTERRUPT_VECTORS -> l <> [] ->
  is_Some (frames s !! running_frame (cpu s)) ->
  exists s',
    irq_handler apply_thunk INTID_NO_PENDING s = Exit ExRunloop s' /\
    trace s' = trace s ++ map (fun h => EvApply (t h)) l ++ [EvGicEoi v].
Proof.
  intros Hin Hnp Hreg Hv Hne [fr Hfr].
  assert (u64 v = v) as Hu.
  { apply u64_id. destruct Hreg as [H0 _].
    unfold in_u64, modulus, MAX_INTERRUPT_VECTORS in *. lia. }
  assert (irq_loop apply_thunk INTID_NO_PENDING 1 s
          = Ret tt (dispatched v l (popped [] s))) as Hloop.
  { rewrite irq_loop_unfold.
    rewrite (bind_Ret _ _ _ _ _ (gic_dispatch_int_cons s v [] Hin)), Hu.
    destruct (Z.eqb_spec v INTID_NO_PENDING) as [? | _]; [contradiction |].
    erewrite bind_Ret by (apply (irq_dispatch_spec _ v l); assumption).
    rewrite irq_loop_unfold.
    erewrite bind_Ret by (apply gic_dispatch_int_nil; reflexivity).
    rewrite Z.eqb_refl. reflexivity. }
  unfold irq_handler.
  erewrite bind_Ret by reflexivity.
  erewrite bind_Ret by reflexivity.
  rewrite Hin. cbn [length].
  erewrite bind_Ret by exact Hloop.
  erewrite bind_Ret by reflexivity.
  destruct l as [| h l]; [contradiction |].
  cbn [dispatched invoked list_empty cpu kernel_context_frame].
  case_bool_decide as Hk.
  - erewrite bind_Ret by (apply (frame_set_spec _ _ fr); exact Hfr).
    eexists. split; [reflexivity |]. cbn. rewrite <- ?app_assoc. reflexivity.
  - erewrite bind_Ret by reflexivity.
    eexists. split; [reflexivity |]. cbn. rewrite <- ?app_assoc. reflexivity.
Qed.

(** What a dispatch leaves alone: the table, the frames and the frame
    references of the core. *)
Definition same_context s s' : Prop :=
  handlers s' = handlers s /\ frames s' = frames s /\
  running_frame (cpu s') = running_frame (cpu s) /\
  kernel_context_frame (cpu s') = kernel_context_frame (cpu s).

Lemma invoked_same_context l s : same_context s (invoked l s).
Proof. unfold same_context. destruct l; cbn; auto. Qed.

Lemma irq_dispatch_outcome s i :
  wf_machine s -> 0 <= i ->
  (exists s', irq_dispatch apply_thunk i s = Ret tt s' /\
              gic s' = gic s /\ same_context s s') \/
  halts (irq_dispatch apply_thunk i s).
Proof.
  intros Hwf Hi.
  destruct (Z.le_gt_cases MAX_INTERRUPT_VECTORS i) as [Hbig | Hlt].
  - right. rewrite irq_dispatch_out_of_range by exact Hbig.
    eexists _, _, _. reflexivity.
  - destruct (registered_exists s i Hwf ltac:(lia)) as [[| h l] Hreg].
    + right. rewrite irq_dispatch_no_handler by assumption.
      eexists _, _, _. reflexivity.
    + left. rewrite (irq_dispatch_spec s i (h :: l)) by (assumption || discriminate).
      eexists. split; [reflexivity |]. split; [reflexivity |].
      apply (invoked_same_context (h :: l) s).
Qed.

(** The loop returns once the controller has nothing more to hand out,
    unless an id on the way is fatal. *)
Lemma irq_loop_outcome (ids : list Z) : forall s,
  wf_machine s -> gic_incoming (gic s) = ids ->
  (exists s', irq_loop apply_thunk INTID_NO_PENDING (length ids) s = Ret tt s' /\
              same_context s s') \/
  halts (irq_loop apply_thunk INTID_NO_PENDING (length ids) s).
Proof.
  induction ids as [| i ids IH]; intros s Hwf Hids; rewrite irq_loop_unfold.
  - rewrite (bind_Ret _ _ _ _ _ (gic_dispatch_int_nil s Hids)), Z.eqb_refl.
    left. exists s. unfold same_context. auto.
  - rewrite (bind_Ret _ _ _ _ _ (gic_dispatch_int_cons s i ids Hids)).
    destruct (u64 i =? INTID_NO_PENDING).
    { left. eexists. split; [reflexivity |]. unfold same_context. cbn. auto. }
    assert (wf_machine (popped ids s)) as Hwf1 by exact Hwf.
    assert (0 <= u64 i) as Hi by apply u64_range.
    destruct (irq_dispatch_outcome (popped ids s) (u64 i) Hwf1 Hi)
      as [(s1 & Hd & Hg & Hh & Hf & Hr & Hk) | (fmt & arg & s1 & Hd)].
    + rewrite (bind_Ret _ _ _ _ _ Hd). cbn [length].
      destruct (IH s1) as [(s2 & Hl & Hh2 & Hf2 & Hr2 & Hk2) | Hhalt].
      * unfold wf_machine in *. rewrite Hh. exact Hwf1.
      * rewrite Hg. reflexivity.
      * left. exists s2. split; [exact Hl |]. unfold same_context.
        cbn in Hh, Hf, Hr, Hk. repeat split; congruence.
      * right. exact Hhalt.
    + right. rewrite (bind_Exit _ _ _ _ _ Hd). eexists _, _, _. reflexivity.
Qed.

(** X22. [irq_handler] ends in the run loop, or halts in its loop; it
    neither returns nor leaves any other way. *)
Lemma irq_handler_outcome s :
  wf_machine s -> is_Some (frames s !! running_frame (cpu s)) ->
  (exists s', irq_handler apply_thunk INTID_NO_PENDING s = Exit ExRunloop s') \/
  halts (irq_handler apply_thunk INTID_NO_PENDING s).
Proof.
  intros Hwf [fr Hfr]. unfold irq_handler.
  erewrite bind_Ret by reflexivity.
  erewrite bind_Ret by reflexivity.
  destruct (irq_loop_outcome (gic_incoming (gic s)) s Hwf eq_refl)
    as [(s1 & Hl & Hh & Hf & Hr & Hk) | (fmt & arg & s1 & Hl)].
  - left. erewrite bind_Ret by exact Hl.
    erewrite bind_Ret by reflexivity.
    case_bool_decide.
    + erewrite bind_Ret.
      * eexists. reflexivity.
      * apply (frame_set_spec _ _ fr). rewrite Hf. exact Hfr.
    + erewrite bind_Ret by reflexivity. eexists. reflexivity.
  - right. erewrite bind_Exit by exact Hl. eexists _, _, _. reflexivity.
Qed.

End Dispatch.

(** *** The synchronous exception dispatcher *)

(** A supervisor call with a zero immediate operand, read off the
    syndrome: exception class [ESR_EC_SVC_AARCH64] and a zero 16-bit
    immediate. *)
Definition svc_zero_immediate (esr : Z) : Prop :=
  field_from_u64 esr ESR_EC_SHIFT ESR_EC_BITS = ESR_EC_SVC_AARCH64 /\
  field_from_u64 esr ESR_ISS_IMM16_SHIFT ESR_ISS_IMM16_BITS = 0.

(** The instruction-length bit of the syndrome (32-bit instruction). *)
Definition il_set (esr : Z) : Prop := Z.testbit esr 25 = true.

(** A syndrome the processor can write.  ARMv8-A sets the
    instruction-length bit for a trapped 32-bit instruction, and class
    [ESR_EC_SVC_AARCH64] is a supervisor call executed in AArch64 state,
    where every instruction is 32 bits wide. *)
Definition architectural (esr : Z) : Prop :=
  field_from_u64 esr ESR_EC_SHIFT ESR_EC_BITS = ESR_EC_SVC_AARCH64 -> il_set esr.




Section Synchronous.

Context {world : Type}.
Variable apply_fault_handler : Z -> Z -> world -> Z * world.
Variable syscall : Z -> world -> option world.
Variable mapped : Z -> bool.
Variable load64 : Z -> Z.

Implicit Types (s : machine world).


(** The machine when control passes to the syscall entry point. *)
Definition at_syscall (fr : frame) s : machine world :=
  let f := running_frame (cpu s) in
  let k := kernel_context_frame (cpu s) in
  mk_machine world (handlers s) (int_general s) (gic s)
    (mk_cpuinfo k k (state (cpu s)))
    (<[f := fn_insert FRAME_VECTOR (fr FRAME_X8) fr]> (frames s))
    (env s) (trace s ++ [EvSyscall f]).

Lemma synchronous_handler_syscall s fr :
  frames s !! running_frame (cpu s) = Some fr ->
  is_syscall_trap (esr_from_frame fr) = true ->
  synchronous_handler apply_fault_handler syscall mapped load64 s
  = match syscall (running_frame (cpu s)) (env s) with
    | None => Exit (ExSyscall (running_frame (cpu s))) (at_syscall fr s)
    | Some w =>
        Exit (ExHalt "synchronous_handler: syscall returned" 0)
             (mk_machine world (handlers s) (int_general s) (gic s)
                (cpu (at_syscall fr s)) (frames (at_syscall fr s)) w
                (trace (at_syscall fr s)))
    end.
Proof.
  intros Hfr Htrap. unfold synchronous_handler.
  erewrite bind_Ret by reflexivity.
  erewrite bind_Ret by (apply frame_load_spec; exact Hfr).
  rewrite Htrap.
  destruct (syscall (running_frame (cpu s)) (env s)) as [w |] eqn:Hsys.
  - erewrite bind_Exit; [reflexivity |].
    erewrite bind_Ret by (apply frame_get_spec; exact Hfr).
    erewrite bind_Ret by (apply (frame_set_spec _ _ fr); exact Hfr).
    erewrite bind_Ret by reflexivity.
    erewrite bind_Ret.
    + reflexivity.
    + unfold switch_stack_1_syscall.
      erewrite bind_Ret by reflexivity.
      erewrite bind_Ret by reflexivity.
      cbn. rewrite Hsys. reflexivity.
  - erewrite bind_Exit; [reflexivity |].
    erewrite bind_Ret by (apply frame_get_spec; exact Hfr).
    erewrite bind_Ret by (apply (frame_set_spec _ _ fr); exact Hfr).
    erewrite bind_Ret by reflexivity.
    erewrite bind_Exit; [reflexivity |].
    unfold switch_stack_1_syscall.
    erewrite bind_Ret by reflexivity.
    erewrite bind_Ret by reflexivity.
    cbn. rewrite Hsys. reflexivity.
Qed.

(** The machine after the fault handler [fh] has run on the trapped
    frame and left the world [w]. *)
Definition fault_handled (fh : Z) (w : world) s : machine world :=
  mk_machine world (handlers s) (int_general s) (gic s) (cpu s) (frames s) w
    (trace s ++ [EvFaultHandler fh (running_frame (cpu s))]).

(** The machine after the diagnostics of the unhandled-fault branch
    have printed the trapped frame and the lines [out] of its stack. *)
Definition diagnosed (out : list (Z * Z)) s : machine world :=
  mk_machine world (handlers s) (int_general s) (gic s) (cpu s) (frames s)
    (env s)
    ((trace s ++ [EvPrintFrame (running_frame (cpu s))]) ++ [EvPrintStack out]).

(** The dispatcher off the syscall path, branch by branch. *)
Lemma synchronous_handler_fault_eq s fr :
  frames s !! running_frame (cpu s) = Some fr ->
  is_syscall_trap (esr_from_frame fr) = false ->
  synchronous_handler apply_fault_handler syscall mapped load64 s
  = let f := running_frame (cpu s) in
    let fh := fr FRAME_FAULT_HANDLER in
    if fh =? 0 then
      match StackTrace.print_stack mapped load64 fr with
      | StackTrace.Finished out => Exit ExSpin (diagnosed out s)
      | StackTrace.Faulted a out => Exit (ExFault a) (diagnosed out s)
      end
    else
      let s1 := fault_handled fh (snd (apply_fault_handler fh f (env s))) s in
      let retframe := fst (apply_fault_handler fh f (env s)) in
      if retframe =? 0 then
        Exit ExRunloop
          (if bool_decide (f = kernel_context_frame (cpu s))
           then stored f fr FRAME_FULL 0 s1 else s1)
      else Exit (ExFrameReturn retframe) s1.
Proof.
  intros Hfr Htrap. unfold synchronous_handler.
  erewrite bind_Ret by reflexivity.
  erewrite bind_Ret by (apply frame_load_spec; exact Hfr).
  rewrite Htrap.
  erewrite bind_Ret by reflexivity.
  erewrite bind_Ret by (apply frame_get_spec; exact Hfr).
  cbv zeta.
  destruct (fr FRAME_FAULT_HANDLER =? 0); cbn [negb].
  - unfold print_frame, print_stack.
    erewrite bind_Ret by reflexivity.
    destruct (StackTrace.print_stack mapped load64 fr) as [out | a out] eqn:Hw.
    + erewrite bind_Ret; [reflexivity |].
      erewrite bind_Ret by (apply frame_load_spec; exact Hfr).
      rewrite Hw. reflexivity.
    + erewrite bind_Exit; [reflexivity |].
      erewrite bind_Ret by (apply frame_load_spec; exact Hfr).
      rewrite Hw. erewrite bind_Ret by reflexivity. reflexivity.
  - destruct (apply_fault_handler (fr FRAME_FAULT_HANDLER)
                (running_frame (cpu s)) (env s)) as [retframe w] eqn:Hfh.
    cbn [fst snd].
    assert (apply_fh apply_fault_handler (fr FRAME_FAULT_HANDLER)
              (running_frame (cpu s)) s
            = Ret retframe (fault_handled (fr FRAME_FAULT_HANDLER) w s)) as Hrun.
    { unfold apply_fh. erewrite bind_Ret by reflexivity.
      erewrite bind_Ret by reflexivity. cbn. rewrite Hfh. reflexivity. }
    erewrite bind_Ret by exact Hrun.
    destruct (retframe =? 0); cbn [negb]; [| reflexivity].
    erewrite bind_Ret by reflexivity.
    erewrite bind_Ret by reflexivity.
    cbn [fault_handled cpu]. case_bool_decide.
    + erewrite bind_Ret by (apply (frame_set_spec _ _ fr); exact Hfr).
      reflexivity.
    + erewrite bind_Ret by reflexivity. reflexivity.
Qed.




End Synchronous.

(** *** A concrete machine *)

(** A trapped frame: [svc #0] from a 32-bit instruction, syscall number
    64 in x8, no fault handler. *)
Definition svc_frame : frame :=
  fun slot =>
    match slot with
    | FRAME_ESR_SPSR => Z.shiftl 0x56000000 32
    | FRAME_X8 => 64
    | _ => 0
    end.

(** The same trap with the instruction-length bit clear. *)
Definition svc16_frame : frame :=
  fun slot =>
    match slot with
    | FRAME_ESR_SPSR => Z.shiftl 0x54000000 32
    | FRAME_X8 => 64
    | _ => 0
    end.

(** The machine as [init_interrupts] sets it up, before any
    registration: an empty list per vector, every line disabled; the
    core runs the frame at 0x1000 and has its kernel context at 0x2000. *)
Definition boot_with (trapped : frame) : machine unit :=
  mk_machine unit
    (replicate (Z.to_nat MAX_INTERRUPT_VECTORS) [])
    4096
    (mk_gic ∅ ∅ ∅ [])
    (mk_cpuinfo 0x1000 0x2000 cpu_kernel)
    (<[0x1000 := trapped]> (<[0x2000 := fun _ => 0]> ∅))
    tt [].

Definition boot : machine unit := boot_with svc_frame.

(** Handlers do nothing to the world, there is no fault handler to
    speak of, and the syscall entry point does not return. *)
Definition idle_thunk : thunk -> unit -> unit := fun _ w => w.
Definition no_fault_handler : Z -> Z -> unit -> Z * unit := fun _ _ w => (0, w).
Definition syscall_entry : Z -> unit -> option unit := fun _ _ => None.

Definition handler_a : inthandler := mk_inthandler 0xa000 "a".
Definition handler_b : inthandler := mk_inthandler 0xb000 "b".

Lemma boot_wf trapped : wf_machine (boot_with trapped).
Proof. reflexivity. Qed.

Lemma boot_registered trapped v :
  0 <= v < MAX_INTERRUPT_VECTORS -> registered (boot_with trapped) v [].
Proof.
  intros Hv. split; [lia |]. cbn [boot_with handlers].
  apply lookup_replicate_2. unfold MAX_INTERRUPT_VECTORS in *. lia.
Qed.

Lemma boot_line_inv trapped : line_inv (boot_with trapped).
Proof.
  intros v l [Hv Hl]. cbn [boot_with handlers] in Hl.
  apply lookup_replicate_1 in Hl as [-> _]. cbn.
  split; [intros H; destruct (not_elem_of_empty (C := gset Z) v H) | congruence].
Qed.

(** A world that keeps the thunks applied to it, in order. *)
Definition recording : thunk -> list thunk -> list thunk := fun th w => w ++ [th].

(** The machine of [boot] over that world, nothing applied yet. *)
Definition boot_recording : machine (list thunk) :=
  mk_machine (list thunk)
    (replicate (Z.to_nat MAX_INTERRUPT_VECTORS) [])
    4096
    (mk_gic ∅ ∅ ∅ [])
    (mk_cpuinfo 0x1000 0x2000 cpu_kernel)
    (<[0x1000 := svc_frame]> (<[0x2000 := fun _ => 0]> ∅))
    [] [].

(** The scenario of the design document: "a" then "b" on vector 45. *)
Lemma irq_dispatch_in_registration_order_witness :
  exists s1 s2,
    register_each 45 [handler_a; handler_b] boot_recording = Ret tt s1 /\
    registered s1 45 ([] ++ [handler_a; handler_b]) /\
    irq_dispatch recording 45 s1 = Ret tt s2 /\
    env s2 = foldl (fun w h => recording (t h) w) (env s1)
                   ([] ++ [handler_a; handler_b]) /\
    trace s2 = trace s1
               ++ map (fun h => EvApply (t h)) ([] ++ [handler_a; handler_b])
               ++ [EvGicEoi 45] /\
    cpu s2 = mk_cpuinfo (running_frame (cpu s1)) (kernel_context_frame (cpu s1))
                        cpu_interrupt /\
    handlers s2 = handlers s1 /\ int_general s2 = int_general s1 /\
    gic s2 = gic s1 /\ frames s2 = frames s1.
Proof.
  apply (irq_dispatch_in_registration_order recording boot_recording 45 []
           [handler_a; handler_b]).
  - reflexivity.
  - split; [lia | reflexivity].
  - discriminate.
  - simpl. unfold sizeof_inthandler. lia.
Defined.

(** In that scenario the world has seen "a", then "b", once each. *)
Example scenario_world :
  match register_each 45 [handler_a; handler_b] boot_recording with
  | Ret _ s1 =>
      match irq_dispatch recording 45 s1 with
      | Ret _ s2 => env s1 = [] /\ env s2 = [0xa000; 0xb000]
      | _ => False
      end
  | _ => False
  end.
Proof. vm_compute. auto. Qed.

(** The machine behind [Ret], or the one given. *)
Definition after {A} (o : outcome unit A) (otherwise : machine unit)
    : machine unit :=
  match o with Ret _ s => s | _ => otherwise end.

Example scenario_trace :
  let s1 := after (register_each 45 [handler_a; handler_b] boot) boot in
  let s2 := after (irq_dispatch idle_thunk 45 s1) boot in
  let s3 := after (unregister_interrupt 45 s2) boot in
  trace s2 = [EvGicSetPriority 45 0; EvGicClearPending 45; EvGicEnable 45;
              EvApply 0xa000; EvApply 0xb000; EvGicEoi 45] /\
  handlers s2 !! 45%nat = Some [handler_a; handler_b] /\
  handlers s3 !! 45%nat = Some [] /\
  int_general s3 = int_general boot.
Proof. vm_compute. auto. Qed.

Lemma line_enabled_iff_handlers_witness :
  let h := mk_inthandler 0xa000 "a" in
  (exists s1,
     register_interrupt 45 0xa000 "a" boot = Ret tt s1 /\
     line_inv s1 /\ registered s1 45 ([] ++ [h]) /\
     (@nil inthandler = [] ->
      trace s1 = trace boot ++ [EvGicSetPriority 45 0; EvGicClearPending 45;
                                EvGicEnable 45] /\
      45 ∈ gic_enabled (gic s1) /\ (45 ∉ gic_pending (gic s1)) /\
      gic_priority (gic s1) !! 45 = Some 0) /\
     (@nil inthandler <> [] -> gic s1 = gic boot /\ trace s1 = trace boot)) /\
  (@nil inthandler <> [] ->
   exists s2,
     unregister_interrupt 45 boot = Ret tt s2 /\
     line_inv s2 /\ registered s2 45 [] /\
     (45 ∉ gic_enabled (gic s2)) /\
     trace s2 = trace boot ++ [EvGicDisable 45] /\
     exists s3,
       register_interrupt 45 0xa000 "a" s2 = Ret tt s3 /\
       line_inv s3 /\ registered s3 45 [h] /\
       45 ∈ gic_enabled (gic s3) /\ (45 ∉ gic_pending (gic s3))) /\
  (@nil inthandler = [] ->
   exists fmt s2,
     unregister_interrupt 45 boot = Exit (ExHalt fmt 45) s2 /\
     line_inv s2 /\ registered s2 45 [] /\ (45 ∉ gic_enabled (gic s2))).
Proof.
  apply (line_enabled_iff_handlers boot 45 [] 0xa000 "a").
  - reflexivity.
  - exact (boot_line_inv svc_frame).
  - split; [lia | reflexivity].
  - simpl. unfold sizeof_inthandler. lia.
Defined.

Lemma halt_conditions_witness :
  (halts (irq_dispatch idle_thunk 45 boot)
   <-> MAX_INTERRUPT_VECTORS <= 45 \/ registered boot 45 []) /\
  (~ halts (irq_dispatch idle_thunk 45 boot)
   -> returns (irq_dispatch idle_thunk 45 boot)) /\
  (45 < MAX_INTERRUPT_VECTORS ->
   (halts (unregister_interrupt 45 boot) <-> registered boot 45 []) /\
   (~ halts (unregister_interrupt 45 boot)
    -> returns (unregister_interrupt 45 boot)) /\
   (registered boot 45 [] ->
    exists fmt s', unregister_interrupt 45 boot = Exit (ExHalt fmt 45) s' /\
                   (45 ∉ gic_enabled (gic s')) /\
                   trace s' = trace boot ++ [EvGicDisable 45])).
Proof.
  apply (halt_conditions idle_thunk boot 45).
  - reflexivity.
  - lia.
Defined.

(** Memory for the diagnostics: every address mapped and holding zero. *)
Definition all_zero_mapped : Z -> bool := fun _ => true.
Definition all_zero : Z -> Z := fun _ => 0.


(** The dispatcher does take [svc #0] for a syscall: x8 holds 64, and
    the entry point is called with the trapped frame. *)
Example svc_enters_syscall :
  svc_zero_immediate (esr_from_frame svc_frame) /\
  exists s',
    synchronous_handler no_fault_handler syscall_entry
      all_zero_mapped all_zero boot = Exit (ExSyscall 0x1000) s' /\
    option_map (fun fr => fr FRAME_VECTOR) (frames s' !! 0x1000) = Some 64 /\
    running_frame (cpu s') = 0x2000 /\
    trace s' = [EvSyscall 0x1000].
Proof.
  split; [split; reflexivity |].
  eexists. split; [vm_compute; reflexivity |].
  split; [reflexivity |]. split; reflexivity.
Qed.

(** The instruction-length bit is read by the test only: a syndrome of
    class supervisor call without it is none the processor writes. *)
Example svc_without_il :
  svc_zero_immediate (esr_from_frame svc16_frame) /\
  is_syscall_trap (esr_from_frame svc16_frame) = false /\
  ~ architectural (esr_from_frame svc16_frame).
Proof.
  split; [split; reflexivity |]. split; [reflexivity |].
  intros H. specialize (H eq_refl). discriminate H.
Qed.

End InterruptProps.

(** ** The diagnostic stack walks *)

Module StackTraceProps.
Import Int64 Interrupt StackTrace.
Local Open Scope Z_scope.

Section Memory.

Variable mapped : Z -> bool.
Variable load64 : Z -> Z.

(** A dereference of a validated pointer does not fault. *)
Lemma deref_validated p :
  validate_virtual mapped p 8 = true -> deref mapped load64 p = Some (load64 p).
Proof. unfold validate_virtual, deref. intros ->. reflexivity. Qed.

(** The frame-pointer walk validates before it dereferences: it never
    faults, whatever is mapped, and prints at most as many return
    addresses as it has frames to go. *)
Lemma frame_trace_from_safe n : forall fp,
  exists out, frame_trace_from mapped load64 n fp = Finished out /\
              (length out <= n)%nat.
Proof.
  induction n as [| n IH]; intros fp; cbn [frame_trace_from].
  - exists []. split; [reflexivity | cbn; lia].
  - destruct (fp <? 4096); [exists []; split; [reflexivity | cbn; lia] |].
    destruct (validate_virtual mapped fp 8) eqn:Hv0; cbn [negb orb];
      [| exists []; split; [reflexivity | cbn; lia]].
    destruct (validate_virtual mapped (u64 (fp + 8)) 8) eqn:Hv1; cbn [negb];
      [| exists []; split; [reflexivity | cbn; lia]].
    rewrite (deref_validated _ Hv1), (deref_validated _ Hv0).
    destruct (load64 (u64 (fp + 8)) =? 0);
      [exists []; split; [reflexivity | cbn; lia] |].
    destruct (IH (load64 fp)) as (out & -> & Hlen).
    eexists. split; [reflexivity |]. cbn. lia.
Qed.

(** X24. [frame_trace] never faults, whatever is mapped and wherever
    [fp] points, and prints at most 16 return addresses. *)
Lemma frame_trace_safe fp :
  exists out, frame_trace mapped load64 fp = Finished out /\
              (length out <= 16)%nat.
Proof. apply frame_trace_from_safe. Qed.

(** The walk stops on a frame pointer below the threshold, on a frame
    that fails validation and on a null return address. *)
Lemma frame_trace_stops fp :
  fp < 4096 \/ validate_virtual mapped fp 8 = false \/
  validate_virtual mapped (u64 (fp + 8)) 8 = false \/
  load64 (u64 (fp + 8)) = 0 ->
  frame_trace mapped load64 fp = Finished [].
Proof.
  unfold frame_trace. cbn [frame_trace_from].
  intros [Hlow | Hrest].
  - destruct (Z.ltb_spec fp 4096); [reflexivity | lia].
  - destruct (fp <? 4096); [reflexivity |].
    destruct (validate_virtual mapped fp 8) eqn:Hv0; cbn [negb orb];
      [| reflexivity].
    destruct (validate_virtual mapped (u64 (fp + 8)) 8) eqn:Hv1; cbn [negb];
      [| reflexivity].
    destruct Hrest as [H | [H | H]]; try discriminate H.
    rewrite (deref_validated _ Hv1), H. reflexivity.
Qed.

(** The raw-stack scan prints at most as many entries as it has to go. *)
Lemma print_stack_from_bounded n : forall x,
  (length (printed (print_stack_from mapped load64 n x)) <= n)%nat.
Proof.
  induction n as [| n IH]; intros x; cbn [print_stack_from].
  - cbn. lia.
  - destruct (x <? 0xffff000000020000); [| cbn; lia].
    destruct (deref mapped load64 x); [| cbn; lia].
    specialize (IH (u64 (x + 8))).
    destruct (print_stack_from mapped load64 n (u64 (x + 8))); cbn in *; lia.
Qed.

(** The raw-stack scan dereferences its pointer without validating it:
    below the upper address, an unmapped stack pointer faults at once. *)
Lemma print_stack_faults (c : frame) :
  c FRAME_SP < 0xffff000000020000 ->
  validate_virtual mapped (c FRAME_SP) 8 = false ->
  print_stack mapped load64 c = Faulted (c FRAME_SP) [].
Proof.
  intros Hlow Hv. unfold print_stack, STACK_TRACE_DEPTH.
  cbn [Nat.of_num_uint Nat.of_uint Nat.of_uint_acc print_stack_from].
  change (print_stack_from mapped load64 128 (c FRAME_SP))
    with (if c FRAME_SP <? 0xffff000000020000
          then match deref mapped load64 (c FRAME_SP) with
               | None => Faulted (c FRAME_SP) []
               | Some v => print_then (c FRAME_SP, v)
                             (print_stack_from mapped load64 127
                                (u64 (c FRAME_SP + 8)))
               end
          else Finished []).
  destruct (Z.ltb_spec (c FRAME_SP) 0xffff000000020000); [| lia].
  unfold deref. unfold validate_virtual in Hv. rewrite Hv. reflexivity.
Qed.

End Memory.

(** Nothing is mapped. *)
Definition unmapped : Z -> bool := fun _ => false.
Definition no_contents : Z -> Z := fun _ => 0.

(** A frame whose stack pointer is 0x1000. *)
Definition stray_sp : frame :=
  fun slot => match slot with FRAME_SP => 0x1000 | _ => 0 end.

(** C8, at the failing input.  With nothing mapped and the stack pointer
    of the frame at 0x1000, the frame-pointer walk stops without a
    fault, while the raw-stack scan faults on its first dereference. *)
Theorem print_stack_dereferences_unvalidated :
  validate_virtual unmapped 0x1000 8 = false /\
  frame_trace unmapped no_contents 0x1000 = Finished [] /\
  print_stack unmapped no_contents stray_sp = Faulted 0x1000 [].
Proof. split; [| split]; reflexivity. Qed.

End StackTraceProps.

(** * Further properties *)

(** ** The clock *)

Module ClockMore.
Import Int64 Int64Facts Clock ClockProps.
Local Open Scope Z_scope.

(** *** One integration step *)

(** X1. Whatever the interval and the coefficient, one multiply-shift
    yields less than [2 ^ 32] units (one second of a 32.32 timestamp) in
    magnitude, with the sign of the coefficient: the product is cut to
    64 bits before the shift. *)
Theorem clock_calculate_drift_bounded (interval c : Z) :
  if 0 <=? c
  then 0 <= clock_calculate_drift interval c < 2 ^ 32
  else - 2 ^ 32 < clock_calculate_drift interval c <= 0.
Proof.
  unfold clock_calculate_drift, CLOCK_CALIBR_BITS.
  destruct (0 <=? c).
  - pose proof (shiftr32_u64 (interval * u64 c)) as H.
    rewrite s64_id by (unfold in_s64, half_modulus; lia). exact H.
  - pose proof (shiftr32_u64 (interval * u64 (s64 (- c)))) as H.
    rewrite s64_u64, s64_id by (unfold in_s64, half_modulus; lia). lia.
Qed.

(** X2. Negating the coefficient negates the step, for every [s64]
    coefficient whose negation is an [s64] (all but the least one). *)
Theorem clock_calculate_drift_negate (interval c : Z) :
  in_s64 c -> c <> - half_modulus ->
  clock_calculate_drift interval (- c) = - clock_calculate_drift interval c.
Proof.
  intros Hc Hmin. unfold in_s64 in Hc.
  rewrite !clock_calculate_drift_scale64
    by (unfold in_s64, half_modulus in *; lia).
  unfold scale64. rewrite Z.abs_opp.
  pose proof (shiftr32_u64 (interval * Z.abs c)) as Hm.
  destruct (Z.ltb_spec (- c) 0), (Z.ltb_spec c 0); try lia.
  assert (c = 0) as -> by lia. rewrite Z.mul_0_r. reflexivity.
Qed.

Lemma clock_calculate_drift_negate_witness :
  clock_calculate_drift 3 (- 0x80000000) = - clock_calculate_drift 3 0x80000000.
Proof.
  apply (clock_calculate_drift_negate 3 0x80000000).
  - unfold in_s64, half_modulus. lia.
  - unfold half_modulus. lia.
Defined.

(** *** Updates *)

Lemma clock_calculate_drift_zero_interval c : clock_calculate_drift (u64 0) c = 0.
Proof.
  unfold clock_calculate_drift, CLOCK_CALIBR_BITS.
  destruct (0 <=? c); reflexivity.
Qed.

Lemma clock_get_drift_s64 d r : in_s64 (clock_get_drift d r).
Proof.
  unfold clock_get_drift.
  destruct ((temp_cal d =? 0) && (cal d =? 0));
    [unfold in_s64, half_modulus; lia |].
  destruct (sync_complete d <? r); [destruct (sync_complete d <? last_raw d) |];
    apply s64_range.
Qed.

(** X3. A second query at the raw reading of the last update finds the
    drift of that update: nothing accumulates while the counter stands
    still, on either side of the boundary. *)
Theorem clock_update_drift_stable (d : vdso_dat) (r : Z) :
  clock_get_drift (snd (clock_update_drift d r)) r = clock_get_drift d r.
Proof.
  pose proof (clock_get_drift_s64 d r) as Hs.
  unfold clock_update_drift. cbn [snd].
  set (drift := clock_get_drift d r) in *.
  unfold clock_get_drift at 1. cbn [set_last temp_cal cal sync_complete
    last_raw last_drift].
  destruct ((temp_cal d =? 0) && (cal d =? 0)) eqn:Hz.
  - unfold drift, clock_get_drift. rewrite Hz. reflexivity.
  - rewrite Z.sub_diag, !clock_calculate_drift_zero_interval, Z.add_0_r.
    destruct (sync_complete d <? r); apply s64_id; exact Hs.
Qed.

(** *** Derived clocks *)

(** X6. At one instant the real-time clock is the monotonic clock plus
    the stored wall-clock offset, on 64 bits; no time query changes
    that offset; and the coarse clocks and the boot-time clock are
    computed as their precise counterparts. *)
Theorem realtime_minus_monotonic {hw : Type}
    (id : clock_id) (e : hw) (s : clock_state hw) :
  u64 (fst (now hw CLOCK_ID_REALTIME e s) - fst (now hw CLOCK_ID_MONOTONIC e s))
  = u64 (rtc_offset (vdso hw s)) /\
  rtc_offset (vdso hw (snd (now hw id e s))) = rtc_offset (vdso hw s) /\
  now hw CLOCK_ID_REALTIME_COARSE e s = now hw CLOCK_ID_REALTIME e s /\
  now hw CLOCK_ID_MONOTONIC_COARSE e s = now hw CLOCK_ID_MONOTONIC e s /\
  uptime hw e s = now hw CLOCK_ID_MONOTONIC e s.
Proof.
  split; [| split; [| repeat split]].
  - unfold now, clock_update_drift.
    destruct (decide (CLOCK_ID_REALTIME = CLOCK_ID_MONOTONIC_RAW));
      [discriminate |].
    destruct (decide (CLOCK_ID_MONOTONIC = CLOCK_ID_MONOTONIC_RAW));
      [discriminate |].
    cbn [fst vdso rtc_offset set_last].
    rewrite u64_sub_l. f_equal. lia.
  - unfold now. destruct (decide (id = CLOCK_ID_MONOTONIC_RAW)); [reflexivity |].
    destruct id; reflexivity.
Qed.

(** X7. Right after a (re)registration, at the same instant, the
    monotonic clock reads the raw counter of the new source and the
    real-time clock reads the real-time clock's seconds as a 32.32
    timestamp (on 64 bits), or the raw counter when there is no
    real-time clock; the structure left behind is within its C types. *)
Theorem wall_clock_at_registration {hw : Type}
    (rtc_gettimeofday : hw -> Z) (cn : clock_now hw) (src : vdso_clock_id)
    (e : hw) (s : clock_state hw) :
  let s' := register_platform_clock_now hw rtc_gettimeofday cn src e s in
  let rt := u64 (rtc_gettimeofday e) in
  let raw := apply_clock_now hw cn e in
  fst (now hw CLOCK_ID_MONOTONIC e s') = raw /\
  fst (now hw CLOCK_ID_REALTIME e s')
  = (if rt =? 0 then raw else u64 (rt * 2 ^ 32)) /\
  wf_vdso (vdso hw s').
Proof.
  intros s' rt raw.
  assert (u64 (raw + 0) = raw) as Hraw.
  { rewrite Z.add_0_r. apply u64_id, u64_range. }
  split; [exact Hraw |]. split.
  - unfold now, clock_update_drift.
    destruct (decide (CLOCK_ID_REALTIME = CLOCK_ID_MONOTONIC_RAW));
      [discriminate |].
    change (clock_get_drift (vdso hw s') (apply_clock_now hw
              (platform_monotonic_now hw s') e)) with 0.
    change (apply_clock_now hw (platform_monotonic_now hw s') e) with raw.
    cbn [fst vdso rtc_offset set_last]. rewrite Hraw.
    change (rtc_offset (vdso hw s'))
      with (if rt =? 0 then 0
            else u64 (u64 (Z.shiftl rt 32) - raw)).
    destruct (rt =? 0).
    + exact Hraw.
    + rewrite u64_add_r, Z.shiftl_mul_pow2 by lia.
      replace (raw + (u64 (rt * 2 ^ 32) - raw)) with (u64 (rt * 2 ^ 32)) by lia.
      apply u64_id, u64_range.
  - split; cbn; try (unfold in_u64, in_s64, modulus, half_modulus; lia).
    destruct (u64 (rtc_gettimeofday e) =? 0);
      [unfold in_u64, modulus; lia | apply u64_range].
Qed.

(** *** Corrected time does not run backwards *)

Lemma scale_exact_zero c : scale_exact 0 c = 0.
Proof. unfold scale_exact. destruct (c <? 0); reflexivity. Qed.

(** With a rate of at least [- 1.0] the raw interval plus its scaled
    part grows with the interval. *)
Lemma scale_exact_mono x y c :
  0 <= x <= y -> - 2 ^ 32 <= c ->
  x + scale_exact x c <= y + scale_exact y c.
Proof.
  intros Hxy Hc. unfold scale_exact.
  pose proof (Z.div_mod (x * Z.abs c) (2 ^ 32) ltac:(lia)).
  pose proof (Z.div_mod (y * Z.abs c) (2 ^ 32) ltac:(lia)).
  pose proof (Z.mod_pos_bound (x * Z.abs c) (2 ^ 32) ltac:(lia)).
  pose proof (Z.mod_pos_bound (y * Z.abs c) (2 ^ 32) ltac:(lia)).
  destruct (Z.ltb_spec c 0).
  - rewrite Z.abs_neq in * by lia. nia.
  - rewrite Z.abs_eq in * by lia. nia.
Qed.

(** One integration step without wrap-around, for a stored drift of up
    to [2 ^ 62 + 2 ^ 40] in magnitude. *)
Lemma drift_step_exact_wide D x c :
  in_s64 c -> 0 <= x < modulus -> x * Z.abs c < modulus ->
  Z.abs D <= 2 ^ 62 + 2 ^ 40 ->
  s64 (D + clock_calculate_drift (u64 x) c) = D + scale_exact x c.
Proof.
  intros Hc Hx Hprod HD.
  rewrite u64_id by exact Hx.
  rewrite clock_calculate_drift_exact by (assumption || lia).
  pose proof (scale_exact_bound x c ltac:(lia) Hprod).
  apply s64_id. unfold in_s64, half_modulus. lia.
Qed.

(** The conditions under which no step from [last_raw d] up to the raw
    reading [r] wraps around. *)
Record no_wrap (d : vdso_dat) (r : Z) : Prop := mk_no_wrap {
  nw_wf : wf_vdso d;
  nw_calibrated : temp_cal d <> 0 \/ cal d <> 0;
  nw_raw : last_raw d <= r < modulus;
  nw_temp : (r - last_raw d) * Z.abs (temp_cal d) < modulus;
  nw_cal : (r - last_raw d) * Z.abs (cal d) < modulus;
  nw_drift : Z.abs (last_drift d) <= 2 ^ 62 + 2 ^ 34
}.

(** The drift on exact integers. *)
Definition drift_exact (d : vdso_dat) (r : Z) : Z :=
  last_drift d +
  if r <=? sync_complete d then scale_exact (r - last_raw d) (temp_cal d)
  else if sync_complete d <? last_raw d
       then scale_exact (r - last_raw d) (cal d)
       else scale_exact (sync_complete d - last_raw d) (temp_cal d)
            + scale_exact (r - sync_complete d) (cal d).

Lemma clock_get_drift_exact d r :
  no_wrap d r -> clock_get_drift d r = drift_exact d r.
Proof.
  intros [[_ Ht Hc Hb Hl _] Hnz Hr HT HS HD].
  unfold in_u64 in Hb, Hl.
  unfold clock_get_drift, drift_exact.
  replace ((temp_cal d =? 0) && (cal d =? 0)) with false; cycle 1.
  { symmetry. apply andb_false_iff.
    destruct Hnz as [H | H]; [left | right]; apply Z.eqb_neq; exact H. }
  assert (forall x, 0 <= x <= r - last_raw d ->
            x * Z.abs (temp_cal d) < modulus) as HTx
    by (intros; eapply sub_product_bound; eassumption).
  assert (forall x, 0 <= x <= r - last_raw d ->
            x * Z.abs (cal d) < modulus) as HSx
    by (intros; eapply sub_product_bound; eassumption).
  destruct (Z.ltb_spec (sync_complete d) r) as [Hbr | Hbr];
    destruct (Z.leb_spec r (sync_complete d)) as [Hrb | Hrb]; try lia.
  - destruct (Z.ltb_spec (sync_complete d) (last_raw d)) as [Hbl | Hbl].
    + apply drift_step_exact_wide; auto with zarith; lia.
    + rewrite (drift_step_exact_wide (last_drift d)
                 (sync_complete d - last_raw d))
        by (auto with zarith; lia).
      pose proof (scale_exact_bound (sync_complete d - last_raw d) (temp_cal d)
                    ltac:(lia) ltac:(auto with zarith)).
      rewrite drift_step_exact_wide by (auto with zarith; lia). lia.
  - apply drift_step_exact_wide; auto with zarith; lia.
Qed.

Lemma no_wrap_earlier d r1 r2 :
  last_raw d <= r1 <= r2 -> no_wrap d r2 -> no_wrap d r1.
Proof.
  intros Hr [Hwf Hnz Hr2 HT HS HD].
  split; try assumption; try lia.
  - apply (sub_product_bound _ (r2 - last_raw d)); [lia | exact HT].
  - apply (sub_product_bound _ (r2 - last_raw d)); [lia | exact HS].
Qed.

(** X4. Read from one state of the structure, corrected time (the raw
    reading plus its drift) does not decrease as the raw reading grows,
    provided both rates are at least [- 1.0] and nothing wraps around. *)
Theorem corrected_time_monotone (d : vdso_dat) (r1 r2 : Z) :
  no_wrap d r2 -> last_raw d <= r1 <= r2 ->
  - 2 ^ 32 <= temp_cal d -> - 2 ^ 32 <= cal d ->
  r1 + clock_get_drift d r1 <= r2 + clock_get_drift d r2.
Proof.
  intros Hnw Hr HT HS.
  rewrite (clock_get_drift_exact d r1) by (eapply no_wrap_earlier; eassumption).
  rewrite (clock_get_drift_exact d r2) by exact Hnw.
  destruct Hnw as [[_ _ _ Hb Hl _] _ Hr2 _ _ _]. unfold in_u64 in Hb, Hl.
  unfold drift_exact.
  set (b := sync_complete d) in *. set (lr := last_raw d) in *.
  destruct (Z.leb_spec r1 b), (Z.leb_spec r2 b), (Z.ltb_spec b lr); try lia.
  - pose proof (scale_exact_mono (r1 - lr) (r2 - lr) (temp_cal d)
                  ltac:(lia) HT). lia.
  - pose proof (scale_exact_mono (r1 - lr) (b - lr) (temp_cal d)
                  ltac:(lia) HT).
    pose proof (scale_exact_mono 0 (r2 - b) (cal d) ltac:(lia) HS) as Hzero.
    rewrite scale_exact_zero in Hzero. lia.
  - pose proof (scale_exact_mono (r1 - lr) (r2 - lr) (cal d) ltac:(lia) HS).
    lia.
  - pose proof (scale_exact_mono (r1 - b) (r2 - b) (cal d) ltac:(lia) HS).
    lia.
Qed.

Lemma scenario_no_wrap : no_wrap scenario 2000.
Proof.
  split; [exact scenario_wf | right; discriminate | ..];
    unfold modulus; simpl; lia.
Defined.

Lemma corrected_time_monotone_witness :
  700 + clock_get_drift scenario 700 <= 2000 + clock_get_drift scenario 2000.
Proof.
  apply (corrected_time_monotone scenario 700 2000).
  - exact scenario_no_wrap.
  - simpl; lia.
  - simpl; lia.
  - simpl; lia.
Defined.

Lemma no_wrap_updated d r1 r2 :
  no_wrap d r2 -> Z.abs (last_drift d) <= 2 ^ 62 -> last_raw d <= r1 <= r2 ->
  no_wrap (snd (clock_update_drift d r1)) r2.
Proof.
  intros Hnw HD Hr.
  pose proof (no_wrap_earlier d r1 r2 Hr Hnw) as Hnw1.
  pose proof (clock_get_drift_exact d r1 Hnw1) as Hex.
  destruct Hnw as [[Ho Ht Hc Hb Hl Hd] Hnz Hr2 HT HS _].
  destruct Hnw1 as [_ _ _ HT1 HS1 _].
  unfold in_u64 in Hb, Hl.
  unfold clock_update_drift. cbn [snd].
  split; cbn [set_last temp_cal cal sync_complete last_raw last_drift];
    try assumption; try lia.
  - split; cbn; try assumption.
    + unfold in_u64. lia.
    + apply clock_get_drift_s64.
  - apply (sub_product_bound _ (r2 - last_raw d)); [lia | exact HT].
  - apply (sub_product_bound _ (r2 - last_raw d)); [lia | exact HS].
  - rewrite Hex. unfold drift_exact.
    pose proof (scale_exact_bound (r1 - last_raw d) (temp_cal d)
                  ltac:(lia) HT1).
    pose proof (scale_exact_bound (r1 - last_raw d) (cal d) ltac:(lia) HS1).
    pose proof (scale_exact_bound (sync_complete d - last_raw d) (temp_cal d)).
    pose proof (scale_exact_bound (r1 - sync_complete d) (cal d)).
    pose proof (sub_product_bound (sync_complete d - last_raw d)
                  (r1 - last_raw d) (temp_cal d)).
    pose proof (sub_product_bound (r1 - sync_complete d)
                  (r1 - last_raw d) (cal d)).
    destruct (Z.leb_spec r1 (sync_complete d));
      [| destruct (Z.ltb_spec (sync_complete d) (last_raw d))]; lia.
Qed.

(** X8. From one update to the next, corrected time does not step
    back: the time computed at a later raw reading is at least the time
    the preceding update computed, provided both rates are at least
    [- 1.0] and nothing wraps around. *)
Theorem corrected_time_never_steps_back (d : vdso_dat) (r1 r2 : Z) :
  no_wrap d r2 -> Z.abs (last_drift d) <= 2 ^ 62 ->
  last_raw d <= r1 <= r2 ->
  - 2 ^ 32 <= temp_cal d -> - 2 ^ 32 <= cal d ->
  r1 + fst (clock_update_drift d r1)
  <= r2 + clock_get_drift (snd (clock_update_drift d r1)) r2.
Proof.
  intros Hnw HD Hr HT HS.
  pose proof (no_wrap_updated d r1 r2 Hnw HD Hr) as Hnw1.
  rewrite (clock_get_drift_exact _ r2 Hnw1).
  unfold clock_update_drift, drift_exact.
  cbn [fst snd set_last temp_cal cal sync_complete last_raw last_drift].
  pose proof (scale_exact_mono 0 (r2 - r1) (temp_cal d) ltac:(lia) HT) as H1.
  pose proof (scale_exact_mono 0 (r2 - r1) (cal d) ltac:(lia) HS) as H2.
  rewrite scale_exact_zero in H1, H2.
  destruct (Z.leb_spec r2 (sync_complete d)); [lia |].
  destruct (Z.ltb_spec (sync_complete d) r1); [lia |].
  pose proof (scale_exact_mono 0 (sync_complete d - r1) (temp_cal d)
                ltac:(lia) HT) as H3.
  pose proof (scale_exact_mono 0 (r2 - sync_complete d) (cal d)
                ltac:(lia) HS) as H4.
  rewrite scale_exact_zero in H3, H4. lia.
Qed.

Lemma corrected_time_never_steps_back_witness :
  700 + fst (clock_update_drift scenario 700)
  <= 2000 + clock_get_drift (snd (clock_update_drift scenario 700)) 2000.
Proof.
  apply (corrected_time_never_steps_back scenario 700 2000).
  - exact scenario_no_wrap.
  - simpl; lia.
  - simpl; lia.
  - simpl; lia.
  - simpl; lia.
Defined.

(** With a rate below [- 1.0] corrected time does run backwards. *)
Example corrected_time_runs_back :
  let d := {| clock_src := VDSO_CLOCK_SYSCALL; platform_has_rdtscp := false;
              rtc_offset := 0; temp_cal := - 0x200000000;
              cal := - 0x200000000; sync_complete := 0;
              last_raw := 1; last_drift := 0 |} in
  2 + clock_get_drift d 2 < 1 + clock_get_drift d 1.
Proof. vm_compute. reflexivity. Qed.

(** *** Whole rates *)

Lemma scale_exact_whole x c :
  (2 ^ 32 | c) -> scale_exact x c = x * (c / 2 ^ 32).
Proof.
  intros [k ->]. unfold scale_exact.
  rewrite Z.div_mul by lia.
  destruct (Z.ltb_spec (k * 2 ^ 32) 0).
  - rewrite Z.abs_neq by lia.
    replace (x * - (k * 2 ^ 32)) with (x * - k * 2 ^ 32) by ring.
    rewrite Z.div_mul by lia. ring.
  - rewrite Z.abs_eq by lia.
    replace (x * (k * 2 ^ 32)) with (x * k * 2 ^ 32) by ring.
    rewrite Z.div_mul by lia. ring.
Qed.

(** X9. For whole rates (coefficients that are multiples of [2 ^ 32])
    nothing is truncated, and the drift at a reading computed directly
    equals the drift computed through an update at an earlier reading,
    as long as nothing wraps around. *)
Theorem whole_rates_path_independent (d : vdso_dat) (r2 r3 : Z) :
  no_wrap d r3 -> Z.abs (last_drift d) <= 2 ^ 62 ->
  last_raw d <= r2 <= r3 ->
  (2 ^ 32 | temp_cal d) -> (2 ^ 32 | cal d) ->
  path_independent d r2 r3.
Proof.
  intros Hnw HD Hr HwT HwS. unfold path_independent.
  rewrite (clock_get_drift_exact _ r3 (no_wrap_updated d r2 r3 Hnw HD Hr)).
  rewrite (clock_get_drift_exact d r3 Hnw).
  unfold clock_update_drift. cbn [snd].
  rewrite (clock_get_drift_exact d r2 (no_wrap_earlier d r2 r3 Hr Hnw)).
  unfold drift_exact.
  cbn [set_last temp_cal cal sync_complete last_raw last_drift].
  rewrite !(scale_exact_whole _ (temp_cal d)) by exact HwT.
  rewrite !(scale_exact_whole _ (cal d)) by exact HwS.
  destruct (Z.leb_spec r3 (sync_complete d)),
           (Z.leb_spec r2 (sync_complete d)),
           (Z.ltb_spec (sync_complete d) (last_raw d)),
           (Z.ltb_spec (sync_complete d) r2); try lia; ring.
Qed.

Lemma whole_rates_path_independent_witness : path_independent scenario 700 2000.
Proof.
  apply (whole_rates_path_independent scenario 700 2000).
  - exact scenario_no_wrap.
  - simpl; lia.
  - simpl; lia.
  - exists 0. reflexivity.
  - exists 1. reflexivity.
Defined.

End ClockMore.

(** ** Interrupt registration and dispatch *)

Module InterruptMore.
Import Int64 Int64Facts Interrupt InterruptProps StackTraceProps.
Local Open Scope Z_scope.

Section Registry.

Context {world : Type}.

Implicit Types (s : machine world) (l : list inthandler) (v i : Z).

(** *** Registration and removal undo each other *)

Lemma register_each_state regs : forall s v l,
  registered s v l ->
  sizeof_inthandler * Z.of_nat (length regs) <= int_general s ->
  exists s1, register_each v regs s = Ret tt s1 /\
             handlers s1 = <[Z.to_nat v := l ++ regs]> (handlers s) /\
             int_general s1
             = int_general s - sizeof_inthandler * Z.of_nat (length regs) /\
             frames s1 = frames s /\ cpu s1 = cpu s /\ env s1 = env s.
Proof.
  induction regs as [| h regs IH]; intros s v l Hreg Hmem.
  - exists s. rewrite app_nil_r.
    rewrite list_insert_id by apply Hreg.
    cbn [length]. repeat split; try reflexivity. lia.
  - cbn [register_each length] in *.
    rewrite (bind_Ret _ _ _ _ _
               (register_interrupt_spec s v (t h) (name h) l Hreg
                  ltac:(unfold sizeof_inthandler in *; lia))).
    replace (mk_inthandler (t h) (name h)) with h by (destruct h; reflexivity).
    assert (registered (appended v h l s) v (l ++ [h])) as Hreg1.
    { destruct Hreg as [Hv Hl]. split; [exact Hv |]. cbn.
      apply list_lookup_insert_eq. eapply lookup_lt_Some. exact Hl. }
    destruct (IH (appended v h l s) v (l ++ [h]) Hreg1)
      as (s1 & Hrun & Hh & Hg & Hf & Hc & He).
    { cbn. unfold sizeof_inthandler in *. lia. }
    exists s1. split; [exact Hrun |].
    rewrite Hh, Hg, Hf, Hc, He. cbn.
    rewrite list_insert_insert_eq, <- app_assoc.
    repeat split; try reflexivity. unfold sizeof_inthandler. lia.
Qed.

(** X10. Registering handlers on a vector that has none and then
    unregistering the vector gives back the table and the heap as they
    were: every handler record is released, none is left in the list,
    and the line ends disabled. *)
Theorem register_unregister_round_trip s v regs :
  registered s v [] -> regs <> [] ->
  sizeof_inthandler * Z.of_nat (length regs) <= int_general s ->
  exists s1 s2,
    register_each v regs s = Ret tt s1 /\
    unregister_interrupt v s1 = Ret tt s2 /\
    handlers s2 = handlers s /\
    int_general s2 = int_general s /\
    (v ∉ gic_enabled (gic s2)).
Proof.
  intros Hreg Hne Hmem.
  destruct (register_each_state regs s v [] Hreg Hmem)
    as (s1 & Hrun & Hh & Hg & _).
  cbn [app] in Hh.
  assert (registered s1 v regs) as Hreg1.
  { destruct Hreg as [Hv Hl]. split; [exact Hv |]. rewrite Hh.
    apply list_lookup_insert_eq. eapply lookup_lt_Some. exact Hl. }
  exists s1, (removed v regs s1).
  split; [exact Hrun |].
  split; [apply unregister_interrupt_spec; assumption |].
  cbn. rewrite Hh, Hg, list_insert_insert_eq.
  split; [apply list_insert_id, Hreg |].
  split; [lia | line_sets].
Qed.

(** *** Other vectors *)

(** Two machines hold the same for vector [v]: handler list, enable
    bit, pending latch and priority. *)
Definition same_vector s s' v : Prop :=
  handlers s' !! Z.to_nat v = handlers s !! Z.to_nat v /\
  (v ∈ gic_enabled (gic s') <-> v ∈ gic_enabled (gic s)) /\
  (v ∈ gic_pending (gic s') <-> v ∈ gic_pending (gic s)) /\
  gic_priority (gic s') !! v = gic_priority (gic s) !! v.

(** X11. Registration and removal on one vector leave every other
    vector as it was (handlers, enable bit, pending latch, priority),
    and touch neither the frames, the core nor the world; for removal
    this holds whether it returns or halts. *)
Theorem other_vectors_untouched s v l th nm v' :
  registered s v l -> sizeof_inthandler <= int_general s ->
  0 <= v' -> v' <> v ->
  (exists s1,
     register_interrupt v th nm s = Ret tt s1 /\
     same_vector s s1 v' /\
     frames s1 = frames s /\ cpu s1 = cpu s /\ env s1 = env s) /\
  (exists s2,
     (unregister_interrupt v s = Ret tt s2 \/
      exists fmt, unregister_interrupt v s = Exit (ExHalt fmt v) s2) /\
     same_vector s s2 v' /\
     frames s2 = frames s /\ cpu s2 = cpu s /\ env s2 = env s).
Proof.
  intros Hreg Hmem Hv' Hne.
  assert (Z.to_nat v <> Z.to_nat v') as Hnat by (destruct Hreg; lia).
  split.
  - exists (appended v (mk_inthandler th nm) l s).
    split; [apply register_interrupt_spec; assumption |].
    split; [| repeat split].
    unfold same_vector. cbn [appended handlers gic].
    rewrite list_lookup_insert_ne by exact Hnat.
    split; [reflexivity |].
    destruct l; cbn [list_empty]; [| tauto].
    cbn [line_opened gic_enabled gic_pending gic_priority].
    rewrite lookup_insert_ne by congruence.
    split; [line_sets |]. split; [line_sets | reflexivity].
  - destruct l as [| h l].
    + exists (disabled v s).
      split; [right; eexists; apply unregister_interrupt_no_handler; exact Hreg |].
      split; [| repeat split].
      unfold same_vector. cbn.
      split; [reflexivity |]. split; [line_sets | tauto].
    + exists (removed v (h :: l) s).
      split; [left; apply unregister_interrupt_spec; [exact Hreg | discriminate] |].
      split; [| repeat split].
      unfold same_vector. cbn [removed handlers gic line_closed gic_enabled
        gic_pending gic_priority].
      rewrite list_lookup_insert_ne by exact Hnat.
      split; [reflexivity |]. split; [line_sets | tauto].
Qed.

End Registry.

Section Dispatch.

Context {world : Type}.
Variable apply_thunk : thunk -> world -> world.
Variable INTID_NO_PENDING : Z.

Implicit Types (s : machine world) (l : list inthandler) (v i : Z).

(** *** Draining the controller *)

(** What serving id [i] adds to the trace: one application per handler
    of the vector, in list order, then one end-of-interrupt. *)
Definition served (hs : list (list inthandler)) i : list event :=
  map (fun h => EvApply (t h)) (default [] (hs !! Z.to_nat i)) ++ [EvGicEoi i].

(** An id the loop serves: a vector in range with a handler, other
    than the id that stands for "nothing pending". *)
Definition serviceable (hs : list (list inthandler)) i : Prop :=
  0 <= i < MAX_INTERRUPT_VECTORS /\ i <> INTID_NO_PENDING /\
  exists l, l <> [] /\ hs !! Z.to_nat i = Some l.

(** What serving id [i] does to the world: the thunks of the vector's
    handlers, applied in list order. *)
Definition serve (hs : list (list inthandler)) (w : world) i : world :=
  foldl (fun w h => apply_thunk (t h) w) w (default [] (hs !! Z.to_nat i)).

Lemma irq_loop_drains (ids : list Z) : forall s,
  gic_incoming (gic s) = ids -> Forall (serviceable (handlers s)) ids ->
  exists s',
    irq_loop apply_thunk INTID_NO_PENDING (length ids) s = Ret tt s' /\
    trace s' = trace s ++ concat (map (served (handlers s)) ids) /\
    env s' = foldl (serve (handlers s)) (env s) ids /\
    gic_incoming (gic s') = [] /\ same_context s s'.
Proof.
  induction ids as [| i ids IH]; intros s Hids Hall;
    rewrite irq_loop_unfold.
  - rewrite (bind_Ret _ _ _ _ _ (gic_dispatch_int_nil INTID_NO_PENDING s Hids)).
    rewrite Z.eqb_refl. exists s. cbn. rewrite app_nil_r.
    unfold same_context. auto 10.
  - inversion Hall as [| ? ? (Hi & Hnp & l & Hne & Hl) Hrest]; subst.
    rewrite (bind_Ret _ _ _ _ _
               (gic_dispatch_int_cons INTID_NO_PENDING s i ids Hids)).
    rewrite (u64_id i)
      by (unfold in_u64, modulus, MAX_INTERRUPT_VECTORS in *; lia).
    destruct (Z.eqb_spec i INTID_NO_PENDING) as [? | _]; [contradiction |].
    assert (registered (popped ids s) i l) as Hreg
      by (split; [lia | exact Hl]).
    rewrite (bind_Ret _ _ _ _ _
               (irq_dispatch_spec apply_thunk (popped ids s) i l Hreg
                  (proj2 Hi) Hne)).
    cbn [length].
    destruct (IH (dispatched apply_thunk i l (popped ids s)))
      as (s' & Hrun & Htr & Henv & Hin & Hh & Hf & Hr & Hk).
    { reflexivity. }
    { exact Hrest. }
    exists s'. split; [exact Hrun |].
    split; [| split; [| split; [exact Hin |]]].
    + rewrite Htr. cbn [map concat]. unfold served at 2. rewrite Hl.
      cbn. rewrite <- !app_assoc. reflexivity.
    + rewrite Henv. cbn [foldl]. unfold serve at 3. rewrite Hl. reflexivity.
    + unfold same_context. rewrite Hh, Hf, Hr, Hk.
      destruct l; [contradiction |]. cbn. auto.
Qed.

(** X12. When every id the controller hands out is a vector in range
    with a handler, [irq_handler] serves them all, in the order of the
    controller: for each id the thunks of its handlers are applied to
    the world in registration order and one end-of-interrupt is sent;
    then it finds nothing pending and leaves for the run loop, with the
    handler table unchanged. *)
Theorem irq_handler_drains s :
  Forall (serviceable (handlers s)) (gic_incoming (gic s)) ->
  is_Some (frames s !! running_frame (cpu s)) ->
  exists s',
    irq_handler apply_thunk INTID_NO_PENDING s = Exit ExRunloop s' /\
    trace s' = trace s
               ++ concat (map (served (handlers s)) (gic_incoming (gic s))) /\
    env s' = foldl (serve (handlers s)) (env s) (gic_incoming (gic s)) /\
    gic_incoming (gic s') = [] /\
    handlers s' = handlers s.
Proof.
  intros Hall [fr Hfr]. unfold irq_handler.
  erewrite bind_Ret by reflexivity.
  erewrite bind_Ret by reflexivity.
  destruct (irq_loop_drains (gic_incoming (gic s)) s eq_refl Hall)
    as (s1 & Hrun & Htr & Henv & Hin & Hh & Hf & Hr & Hk).
  erewrite bind_Ret by exact Hrun.
  erewrite bind_Ret by reflexivity.
  case_bool_decide.
  - erewrite bind_Ret
      by (apply (frame_set_spec _ _ fr); rewrite Hf; exact Hfr).
    eexists. split; [reflexivity |]. cbn. auto.
  - erewrite bind_Ret by reflexivity.
    eexists. split; [reflexivity |]. auto.
Qed.

Lemma irq_loop_halts_at (good : list Z) (bad : Z) (rest : list Z) : forall s,
  gic_incoming (gic s) = good ++ bad :: rest ->
  Forall (serviceable (handlers s)) good ->
  0 <= bad < modulus -> bad <> INTID_NO_PENDING ->
  MAX_INTERRUPT_VECTORS <= bad \/ handlers s !! Z.to_nat bad = Some [] ->
  exists fmt s',
    irq_loop apply_thunk INTID_NO_PENDING (length (good ++ bad :: rest)) s
    = Exit (ExHalt fmt bad) s' /\
    trace s' = trace s ++ concat (map (served (handlers s)) good) /\
    gic_incoming (gic s') = rest.
Proof.
  induction good as [| i good IH]; intros s Hids Hall Hbad Hnp Hfatal;
    rewrite irq_loop_unfold.
  - cbn [app] in Hids.
    rewrite (bind_Ret _ _ _ _ _
               (gic_dispatch_int_cons INTID_NO_PENDING s bad rest Hids)).
    rewrite (u64_id bad) by exact Hbad.
    destruct (Z.eqb_spec bad INTID_NO_PENDING) as [? | _]; [contradiction |].
    destruct (Z.le_gt_cases MAX_INTERRUPT_VECTORS bad) as [Hbig | Hlt].
    + rewrite (bind_Exit _ _ _ _ _
                 (irq_dispatch_out_of_range apply_thunk (popped rest s) bad Hbig)).
      eexists _, _. split; [reflexivity |]. cbn. rewrite app_nil_r. auto.
    + destruct Hfatal as [? | Hnone]; [lia |].
      assert (registered (popped rest s) bad []) as Hreg
        by (split; [lia | exact Hnone]).
      rewrite (bind_Exit _ _ _ _ _
                 (irq_dispatch_no_handler apply_thunk (popped rest s) bad
                    Hreg Hlt)).
      eexists _, _. split; [reflexivity |]. cbn. rewrite app_nil_r. auto.
  - inversion Hall as [| ? ? (Hi & Hinp & l & Hne & Hl) Hgood]; subst.
    cbn [app] in Hids.
    rewrite (bind_Ret _ _ _ _ _
               (gic_dispatch_int_cons INTID_NO_PENDING s i
                  (good ++ bad :: rest) Hids)).
    rewrite (u64_id i)
      by (unfold in_u64, modulus, MAX_INTERRUPT_VECTORS in *; lia).
    destruct (Z.eqb_spec i INTID_NO_PENDING) as [? | _]; [contradiction |].
    assert (registered (popped (good ++ bad :: rest) s) i l) as Hreg
      by (split; [lia | exact Hl]).
    rewrite (bind_Ret _ _ _ _ _
               (irq_dispatch_spec apply_thunk _ i l Hreg (proj2 Hi) Hne)).
    cbn [app length].
    destruct (IH (dispatched apply_thunk i l (popped (good ++ bad :: rest) s)))
      as (fmt & s' & Hrun & Htr & Hin); try assumption; try reflexivity.
    exists fmt, s'. split; [exact Hrun |]. split; [| exact Hin].
    rewrite Htr. cbn [map concat]. unfold served at 2. rewrite Hl.
    cbn. rewrite <- !app_assoc. reflexivity.
Qed.

(** X18. When the controller hands out an id that is out of range or
    has no handler after some ids that can be served, [irq_handler]
    serves those, each with its end-of-interrupt, and halts on the
    fatal id: no handler is applied and no end-of-interrupt is sent for
    it, and the ids behind it are left with the controller. *)
Theorem irq_handler_halts_at_first_fatal s good bad rest :
  gic_incoming (gic s) = good ++ bad :: rest ->
  Forall (serviceable (handlers s)) good ->
  0 <= bad < modulus -> bad <> INTID_NO_PENDING ->
  MAX_INTERRUPT_VECTORS <= bad \/ handlers s !! Z.to_nat bad = Some [] ->
  exists fmt s',
    irq_handler apply_thunk INTID_NO_PENDING s = Exit (ExHalt fmt bad) s' /\
    trace s' = trace s ++ concat (map (served (handlers s)) good) /\
    gic_incoming (gic s') = rest.
Proof.
  intros Hids Hall Hbad Hnp Hfatal. unfold irq_handler.
  erewrite bind_Ret by reflexivity.
  erewrite bind_Ret by reflexivity.
  destruct (irq_loop_halts_at good bad rest s Hids Hall Hbad Hnp Hfatal)
    as (fmt & s' & Hrun & Htr & Hin).
  rewrite Hids. erewrite bind_Exit by exact Hrun.
  exists fmt, s'. auto.
Qed.

(** X13. When [irq_handler] reaches the run loop it has cleared the
    frame-full flag of the frame the core was running exactly when that
    frame is the core's kernel-context frame; every other slot and
    every other frame is as before. *)
Theorem irq_handler_frame_full s s' fr :
  wf_machine s ->
  frames s !! running_frame (cpu s) = Some fr ->
  irq_handler apply_thunk INTID_NO_PENDING s = Exit ExRunloop s' ->
  frames s'
  = if decide (running_frame (cpu s) = kernel_context_frame (cpu s))
    then <[running_frame (cpu s) := fn_insert FRAME_FULL 0 fr]> (frames s)
    else frames s.
Proof.
  intros Hwf Hfr. unfold irq_handler.
  erewrite bind_Ret by reflexivity.
  erewrite bind_Ret by reflexivity.
  destruct (irq_loop_outcome apply_thunk INTID_NO_PENDING
              (gic_incoming (gic s)) s Hwf eq_refl)
    as [(s1 & Hl & Hh & Hf & Hr & Hk) | (fmt & arg & s1 & Hl)].
  - erewrite bind_Ret by exact Hl.
    erewrite bind_Ret by reflexivity.
    rewrite Hk. case_bool_decide as Hdec; case_decide; try contradiction.
    + erewrite bind_Ret
        by (apply (frame_set_spec _ _ fr); rewrite Hf; exact Hfr).
      intros [= <-]. cbn. rewrite Hf. reflexivity.
    + erewrite bind_Ret by reflexivity.
      intros [= <-]. exact Hf.
  - erewrite bind_Exit by exact Hl. discriminate.
Qed.

End Dispatch.

Section Fallback.

Context {world : Type}.

Implicit Types (s : machine world).

(** *** The fallback fault handler *)

(** [install_fallback_fault_handler(h)]; [cpus] lists
    [cpuinfo_from_id(i)] for [i] below [MAX_CPUS], which are not among
    the sources. *)
Fixpoint install_fallback_fault_handler (cpus : list cpuinfo) (h : Z)
    : M world unit :=
  match cpus with
  | [] => ret tt
  | ci :: rest =>
      bind (frame_set (kernel_context_frame ci) FRAME_FAULT_HANDLER h)
           (fun _ => install_fallback_fault_handler rest h)
  end.

(** The frame [fr'] is [fr] with the fault handler [h], if [set]. *)
Definition with_fault_handler (set : bool) (h : Z) (fr fr' : frame) : Prop :=
  forall slot,
    fr' slot = if set && bool_decide (slot = FRAME_FAULT_HANDLER)
               then h else fr slot.

Lemma install_fallback_spec (h : Z) (cpus : list cpuinfo) : forall s,
  Forall (fun ci => is_Some (frames s !! kernel_context_frame ci)) cpus ->
  exists s',
    install_fallback_fault_handler cpus h s = Ret tt s' /\
    (forall p,
       option_Forall2
         (with_fault_handler
            (bool_decide (p ∈ map kernel_context_frame cpus)) h)
         (frames s !! p) (frames s' !! p)) /\
    handlers s' = handlers s /\ gic s' = gic s /\ cpu s' = cpu s /\
    env s' = env s /\ trace s' = trace s.
Proof.
  induction cpus as [| ci cpus IH]; intros s Hall.
  - exists s. split; [reflexivity |]. split; [| auto 10].
    intros p. cbn. destruct (frames s !! p); constructor.
    intros slot. reflexivity.
  - inversion Hall as [| ? ? [fr Hfr] Hrest]; subst.
    cbn [install_fallback_fault_handler].
    rewrite (bind_Ret _ _ _ _ _
               (frame_set_spec s (kernel_context_frame ci) fr
                  FRAME_FAULT_HANDLER h Hfr)).
    set (k := kernel_context_frame ci) in *.
    set (s1 := stored k fr FRAME_FAULT_HANDLER h s).
    destruct (IH s1) as (s' & Hrun & Hfs & Hh & Hg & Hc & He & Ht).
    { eapply Forall_impl; [| exact Hrest]. intros cj [frj Hj]. cbn.
      destruct (decide (k = kernel_context_frame cj)) as [<- | Hne].
      - rewrite lookup_insert_eq. eauto.
      - rewrite lookup_insert_ne by exact Hne. eauto. }
    exists s'. split; [exact Hrun |]. split; [| auto 10].
    intros p. specialize (Hfs p). cbn [map].
    unfold s1 in Hfs. cbn [stored frames] in Hfs.
    destruct (decide (p = k)) as [-> | Hne].
    + rewrite lookup_insert_eq in Hfs. rewrite Hfr.
      inversion Hfs as [? fr' Hfr' |]; subst. constructor.
      intros slot. rewrite Hfr'.
      rewrite (bool_decide_eq_true_2 (k ∈ k :: _)) by (left).
      cbn [andb]. unfold fn_insert.
      destruct (decide (FRAME_FAULT_HANDLER = slot)) as [<- | Hs].
      * rewrite (bool_decide_eq_true_2
                   (FRAME_FAULT_HANDLER = FRAME_FAULT_HANDLER)) by reflexivity.
        rewrite andb_true_r. destruct (bool_decide _); reflexivity.
      * rewrite (bool_decide_eq_false_2 (slot = FRAME_FAULT_HANDLER))
          by congruence.
        rewrite andb_false_r. reflexivity.
    + rewrite lookup_insert_ne in Hfs by congruence.
      replace (bool_decide (p ∈ k :: map kernel_context_frame cpus))
        with (bool_decide (p ∈ map kernel_context_frame cpus)); [exact Hfs |].
      apply bool_decide_ext. rewrite elem_of_cons. tauto.
Qed.

(** X14. When the kernel-context frame of every core is there,
    [install_fallback_fault_handler] returns, having set the fault
    handler slot of each of these frames to [h]; every other slot of
    these frames and every other frame is as before, and so are the
    handler table, the controller, the core and the trace. *)
Theorem install_fallback_fault_handler_sets (h : Z) (cpus : list cpuinfo) s :
  Forall (fun ci => is_Some (frames s !! kernel_context_frame ci)) cpus ->
  exists s',
    install_fallback_fault_handler cpus h s = Ret tt s' /\
    (forall p,
       option_Forall2
         (with_fault_handler
            (bool_decide (p ∈ map kernel_context_frame cpus)) h)
         (frames s !! p) (frames s' !! p)) /\
    handlers s' = handlers s /\ gic s' = gic s /\ cpu s' = cpu s /\
    trace s' = trace s.
Proof.
  intros Hall.
  destruct (install_fallback_spec h cpus s Hall)
    as (s' & Hrun & Hfs & Hh & Hg & Hc & _ & Ht).
  exists s'. auto 10.
Qed.

End Fallback.

Section Synchronous.

Context {world : Type}.
Variable apply_fault_handler : Z -> Z -> world -> Z * world.
Variable syscall : Z -> world -> option world.
Variable mapped : Z -> bool.
Variable load64 : Z -> Z.

Implicit Types (s : machine world).

(** *** The fault path *)

(** The raw-stack scan faults only on an address below its upper bound
    whose eight bytes are not all mapped. *)
Lemma print_stack_from_fault n : forall x a out,
  StackTrace.print_stack_from mapped load64 n x = StackTrace.Faulted a out ->
  a < 0xffff000000020000 /\ StackTrace.range_mapped mapped a 8 = false.
Proof.
  induction n as [| n IH]; intros x a out; cbn [StackTrace.print_stack_from].
  - discriminate.
  - destruct (Z.ltb_spec x 0xffff000000020000) as [Hlow | _]; [| discriminate].
    unfold StackTrace.deref.
    destruct (StackTrace.range_mapped mapped x 8) eqn:Hmap.
    + destruct (StackTrace.print_stack_from mapped load64 n (u64 (x + 8)))
        as [out' | a' out'] eqn:Hrest; cbn [StackTrace.print_then];
        [discriminate |].
      intros [= <- _]. exact (IH _ _ _ Hrest).
    + intros [= <- _]. auto.
Qed.

(** X15. [synchronous_handler] does not come back: whenever the frame
    the core was running is there, it leaves for the syscall entry
    point with that frame, halts because the entry point returned,
    resumes a frame (not null) the fault handler gave, enters the run
    loop, spins after the diagnostics, or takes a fault in the stack
    scan of the diagnostics, on an address that is not mapped. *)
Theorem synchronous_handler_leaves s :
  is_Some (frames s !! running_frame (cpu s)) ->
  exists x s',
    synchronous_handler apply_fault_handler syscall mapped load64 s = Exit x s' /\
    (x = ExSyscall (running_frame (cpu s)) \/
     x = ExHalt "synchronous_handler: syscall returned" 0 \/
     (exists r, r <> 0 /\ x = ExFrameReturn r) \/
     x = ExRunloop \/
     x = ExSpin \/
     (exists a, x = ExFault a /\ StackTrace.range_mapped mapped a 8 = false)).
Proof.
  intros [fr Hfr].
  destruct (is_syscall_trap (esr_from_frame fr)) eqn:Htrap.
  - rewrite (synchronous_handler_syscall apply_fault_handler syscall
               mapped load64 s fr Hfr Htrap).
    destruct (syscall _ _); eexists _, _; (split; [reflexivity |]); auto.
  - rewrite (synchronous_handler_fault_eq apply_fault_handler syscall
               mapped load64 s fr Hfr Htrap). cbv zeta.
    destruct (fr FRAME_FAULT_HANDLER =? 0).
    + destruct (StackTrace.print_stack mapped load64 fr) as [out | a out] eqn:Hw;
        eexists _, _; (split; [reflexivity |]); [auto 10 |].
      do 5 right. exists a. split; [reflexivity |].
      exact (proj2 (print_stack_from_fault _ _ _ _ Hw)).
    + destruct (Z.eqb_spec (fst (apply_fault_handler (fr FRAME_FAULT_HANDLER)
                                   (running_frame (cpu s)) (env s))) 0)
        as [_ | Hne]; eexists _, _; (split; [reflexivity |]); [auto 10 |].
      right. right. left. eexists. split; [exact Hne | reflexivity].
Qed.

(** X16. On the fault path the way out follows the fault handler.  With
    no handler in the frame the dispatcher prints the frame and scans
    its stack: it spins when the scan ends, and takes the fault when the
    scan reaches an address that is not mapped; the world and the frames
    are as before.  A handler in the frame is called on the trapped
    frame and leaves its world; the frame it returns is resumed, and on
    null the run loop is entered.  The frame-full flag of the trapped
    frame is cleared only in the last case and only when the trap was
    taken in the kernel context; no other frame or slot changes. *)
Theorem synchronous_handler_fault_path s fr x s' :
  frames s !! running_frame (cpu s) = Some fr ->
  is_syscall_trap (esr_from_frame fr) = false ->
  synchronous_handler apply_fault_handler syscall mapped load64 s = Exit x s' ->
  let f := running_frame (cpu s) in
  let fh := fr FRAME_FAULT_HANDLER in
  let retframe := fst (apply_fault_handler fh f (env s)) in
  let scan := StackTrace.print_stack mapped load64 fr in
  x = (if fh =? 0 then
         match scan with
         | StackTrace.Finished _ => ExSpin
         | StackTrace.Faulted a _ => ExFault a
         end
       else if retframe =? 0 then ExRunloop else ExFrameReturn retframe) /\
  trace s' = (if fh =? 0
              then trace s ++ [EvPrintFrame f; EvPrintStack (StackTrace.printed scan)]
              else trace s ++ [EvFaultHandler fh f]) /\
  env s' = (if fh =? 0 then env s
            else snd (apply_fault_handler fh f (env s))) /\
  frames s'
  = (if negb (fh =? 0) && (retframe =? 0)
        && bool_decide (f = kernel_context_frame (cpu s))
     then <[f := fn_insert FRAME_FULL 0 fr]> (frames s)
     else frames s).
Proof.
  intros Hfr Htrap.
  rewrite (synchronous_handler_fault_eq apply_fault_handler syscall
             mapped load64 s fr Hfr Htrap). cbv zeta.
  destruct (fr FRAME_FAULT_HANDLER =? 0); cbn [negb andb].
  - destruct (StackTrace.print_stack mapped load64 fr) as [out | a out];
      intros [= <- <-]; cbn; rewrite <- app_assoc; auto.
  - destruct (fst (apply_fault_handler (fr FRAME_FAULT_HANDLER)
                     (running_frame (cpu s)) (env s)) =? 0); cbn [andb].
    + case_bool_decide; intros [= <- <-]; auto.
    + intros [= <- <-]. auto.
Qed.

(** X17. Once the fallback fault handler [h] (not null) is installed, a
    trap that is not a syscall, taken while the core runs its kernel
    context, calls [h] on the trapped frame, once, in the world as it
    was: the world is the one [h] leaves, the way out is the one [h]
    chooses (the frame it returns is resumed, on null the run loop is
    entered), and the diagnostics of the unhandled fault are not
    printed. *)
Theorem fallback_fault_handler_called (h : Z) (cpus : list cpuinfo) s fr :
  Forall (fun ci => is_Some (frames s !! kernel_context_frame ci)) cpus ->
  cpu s ∈ cpus ->
  running_frame (cpu s) = kernel_context_frame (cpu s) ->
  frames s !! running_frame (cpu s) = Some fr ->
  is_syscall_trap (esr_from_frame fr) = false ->
  h <> 0 ->
  exists s1 x s2,
    install_fallback_fault_handler cpus h s = Ret tt s1 /\
    synchronous_handler apply_fault_handler syscall mapped load64 s1
    = Exit x s2 /\
    let f := running_frame (cpu s) in
    let retframe := fst (apply_fault_handler h f (env s)) in
    x = (if retframe =? 0 then ExRunloop else ExFrameReturn retframe) /\
    env s2 = snd (apply_fault_handler h f (env s)) /\
    trace s2 = trace s ++ [EvFaultHandler h f].
Proof.
  intros Hall Hin Hk Hfr Htrap Hh.
  destruct (install_fallback_spec h cpus s Hall)
    as (s1 & Hrun & Hfs & _ & _ & Hc & He & Ht).
  specialize (Hfs (running_frame (cpu s))). rewrite Hfr in Hfs.
  rewrite bool_decide_eq_true_2 in Hfs
    by (rewrite Hk; apply list_elem_of_In, in_map, list_elem_of_In; exact Hin).
  inversion Hfs as [? fr1 Hfr1 Heq1 Heq2 |]; subst.
  symmetry in Heq2.
  assert (fr1 FRAME_FAULT_HANDLER = h) as Hfh by (rewrite Hfr1; reflexivity).
  assert (esr_from_frame fr1 = esr_from_frame fr) as Hesr
    by (unfold esr_from_frame; rewrite Hfr1; reflexivity).
  rewrite <- Hc in Heq2.
  pose proof (synchronous_handler_fault_eq apply_fault_handler syscall
                mapped load64 s1 fr1 Heq2
                ltac:(rewrite Hesr; exact Htrap)) as Heq.
  cbv zeta in Heq. rewrite Hfh, Hc, He in Heq.
  destruct (Z.eqb_spec h 0) as [? | _]; [contradiction |].
  exists s1. rewrite Heq. cbv zeta.
  destruct (fst (apply_fault_handler h (running_frame (cpu s)) (env s)) =? 0).
  - eexists _, _. split; [exact Hrun |]. split; [reflexivity |].
    split; [reflexivity |].
    case_bool_decide; cbn; rewrite Ht, Hc; auto.
  - eexists _, _. split; [exact Hrun |]. split; [reflexivity |].
    split; [reflexivity |]. cbn. rewrite Ht, Hc. auto.
Qed.

End Synchronous.

(** *** Concrete machines *)

(** The id the controller returns when nothing is pending (1023 on the
    GIC). *)
Definition NO_PENDING : Z := 1023.

(** Handlers "a" and "b" on vector 45, with id 45 pending twice; the
    core runs its kernel-context frame, which holds no syscall trap. *)
Definition armed : machine unit :=
  mk_machine unit
    (<[45%nat := [handler_a; handler_b]]>
       (replicate (Z.to_nat MAX_INTERRUPT_VECTORS) []))
    4032
    (mk_gic {[45]} ∅ {[45 := 0]} [45; 45])
    (mk_cpuinfo 0x2000 0x2000 cpu_kernel)
    (<[0x1000 := svc_frame]> (<[0x2000 := fun _ => 0]> ∅))
    tt [].

(** A machine whose heap cannot hold one more handler record. *)
Definition starved : machine unit :=
  mk_machine unit (replicate (Z.to_nat MAX_INTERRUPT_VECTORS) []) 16
    (mk_gic ∅ ∅ ∅ []) (mk_cpuinfo 0x1000 0x2000 cpu_kernel)
    (<[0x1000 := svc_frame]> (<[0x2000 := fun _ => 0]> ∅)) tt [].

(** The machine an outcome ends in. *)
Definition final {A} (o : outcome unit A) (otherwise : machine unit)
    : machine unit :=
  match o with Ret _ s | Exit _ s => s | Undef => otherwise end.

Lemma register_unregister_round_trip_witness :
  exists s1 s2,
    register_each 45 [handler_a; handler_b] boot = Ret tt s1 /\
    unregister_interrupt 45 s1 = Ret tt s2 /\
    handlers s2 = handlers boot /\
    int_general s2 = int_general boot /\
    (45 ∉ gic_enabled (gic s2)).
Proof.
  apply (register_unregister_round_trip boot 45 [handler_a; handler_b]).
  - split; [lia | reflexivity].
  - discriminate.
  - simpl. unfold sizeof_inthandler. lia.
Defined.

Lemma other_vectors_untouched_witness :
  (exists s1,
     register_interrupt 45 0xa000 "a" boot = Ret tt s1 /\
     same_vector boot s1 46 /\
     frames s1 = frames boot /\ cpu s1 = cpu boot /\ env s1 = env boot) /\
  (exists s2,
     (unregister_interrupt 45 boot = Ret tt s2 \/
      exists fmt, unregister_interrupt 45 boot = Exit (ExHalt fmt 45) s2) /\
     same_vector boot s2 46 /\
     frames s2 = frames boot /\ cpu s2 = cpu boot /\ env s2 = env boot).
Proof.
  apply (other_vectors_untouched boot 45 [] 0xa000 "a" 46).
  - split; [lia | reflexivity].
  - simpl. unfold sizeof_inthandler. lia.
  - lia.
  - lia.
Defined.

Lemma register_interrupt_no_memory_witness :
  register_interrupt 45 0xa000 "a" starved
  = Exit (ExAssert "h != INVALID_ADDRESS") starved.
Proof.
  apply (register_interrupt_no_memory starved 45 0xa000 "a" []).
  - split; [lia | reflexivity].
  - simpl. unfold sizeof_inthandler. lia.
Defined.

Lemma armed_serviceable :
  Forall (serviceable NO_PENDING (handlers armed)) (gic_incoming (gic armed)).
Proof.
  assert (serviceable NO_PENDING (handlers armed) 45) as H45.
  { unfold serviceable, MAX_INTERRUPT_VECTORS, NO_PENDING.
    split; [lia |]. split; [lia |].
    exists [handler_a; handler_b]. split; [discriminate | reflexivity]. }
  exact (Forall_cons _ _ _ H45 (Forall_cons _ _ _ H45 (Forall_nil _))).
Defined.

(** The machine [armed] over the world that keeps the thunks applied to
    it; fault handlers are kept in the same way. *)
Definition armed_recording : machine (list Z) :=
  mk_machine (list Z) (handlers armed) (int_general armed) (gic armed)
    (cpu armed) (frames armed) [] [].

Lemma armed_recording_serviceable :
  Forall (serviceable NO_PENDING (handlers armed_recording))
         (gic_incoming (gic armed_recording)).
Proof. exact armed_serviceable. Defined.

Lemma irq_handler_drains_witness :
  exists s',
    irq_handler recording NO_PENDING armed_recording = Exit ExRunloop s' /\
    trace s' = trace armed_recording
               ++ concat (map (served (handlers armed_recording))
                              (gic_incoming (gic armed_recording))) /\
    env s' = foldl (serve recording (handlers armed_recording))
                   (env armed_recording) (gic_incoming (gic armed_recording)) /\
    gic_incoming (gic s') = [] /\
    handlers s' = handlers armed_recording.
Proof.
  apply (irq_handler_drains recording NO_PENDING armed_recording).
  - exact armed_recording_serviceable.
  - eexists. reflexivity.
Defined.

(** Both assertions of id 45 reach "a" and then "b". *)
Example armed_world :
  match irq_handler recording NO_PENDING armed_recording with
  | Exit ExRunloop s' => env s' = [0xa000; 0xb000; 0xa000; 0xb000]
  | _ => False
  end.
Proof. vm_compute. reflexivity. Qed.

Example armed_trace :
  trace (final (irq_handler idle_thunk NO_PENDING armed) armed)
  = [EvApply 0xa000; EvApply 0xb000; EvGicEoi 45;
     EvApply 0xa000; EvApply 0xb000; EvGicEoi 45].
Proof. vm_compute. reflexivity. Qed.

(** Id 45 pending, then id 300, then id 45 again. *)
Definition armed_fatal : machine unit :=
  mk_machine unit (handlers armed) (int_general armed)
    (mk_gic {[45]} ∅ {[45 := 0]} [45; 300; 45])
    (cpu armed) (frames armed) tt [].

Lemma irq_handler_halts_at_first_fatal_witness :
  exists fmt s',
    irq_handler idle_thunk NO_PENDING armed_fatal = Exit (ExHalt fmt 300) s' /\
    trace s' = trace armed_fatal
               ++ concat (map (served (handlers armed_fatal)) [45]) /\
    gic_incoming (gic s') = [45].
Proof.
  apply (irq_handler_halts_at_first_fatal idle_thunk NO_PENDING armed_fatal
           [45] 300 [45]).
  - reflexivity.
  - apply Forall_cons; [| apply Forall_nil].
    unfold serviceable, MAX_INTERRUPT_VECTORS, NO_PENDING.
    split; [lia |]. split; [lia |].
    exists [handler_a; handler_b]. split; [discriminate | reflexivity].
  - unfold modulus. lia.
  - unfold NO_PENDING. lia.
  - left. unfold MAX_INTERRUPT_VECTORS. lia.
Defined.

Lemma irq_handler_outcome_witness :
  (exists s', irq_handler idle_thunk NO_PENDING boot = Exit ExRunloop s') \/
  halts (irq_handler idle_thunk NO_PENDING boot).
Proof.
  apply (irq_handler_outcome idle_thunk NO_PENDING boot).
  - reflexivity.
  - eexists. reflexivity.
Defined.

Lemma irq_handler_frame_full_witness :
  frames (final (irq_handler idle_thunk NO_PENDING armed) armed)
  = if decide (running_frame (cpu armed) = kernel_context_frame (cpu armed))
    then <[running_frame (cpu armed) := fn_insert FRAME_FULL 0 (fun _ => 0)]>
           (frames armed)
    else frames armed.
Proof.
  apply (irq_handler_frame_full idle_thunk NO_PENDING armed
           (final (irq_handler idle_thunk NO_PENDING armed) armed)
           (fun _ => 0)).
  - reflexivity.
  - reflexivity.
  - vm_compute. reflexivity.
Defined.

Lemma install_fallback_fault_handler_sets_witness :
  exists s',
    install_fallback_fault_handler [cpu armed] 0xf000 armed = Ret tt s' /\
    (forall p,
       option_Forall2
         (with_fault_handler
            (bool_decide (p ∈ map kernel_context_frame [cpu armed])) 0xf000)
         (frames armed !! p) (frames s' !! p)) /\
    handlers s' = handlers armed /\ gic s' = gic armed /\
    cpu s' = cpu armed /\ trace s' = trace armed.
Proof.
  apply (install_fallback_fault_handler_sets 0xf000 [cpu armed] armed).
  repeat constructor. eexists. reflexivity.
Defined.

(** A fault handler that is kept by the world and resumes the trapped
    frame, and a syscall entry point that does not return. *)
Definition resuming : Z -> Z -> list Z -> Z * list Z :=
  fun fh f w => (f, w ++ [fh]).
Definition entry_taken : Z -> list Z -> option (list Z) := fun _ _ => None.

Lemma synchronous_handler_leaves_witness :
  exists x s',
    synchronous_handler no_fault_handler syscall_entry unmapped no_contents
      (boot_with svc16_frame) = Exit x s' /\
    (x = ExSyscall (running_frame (cpu (boot_with svc16_frame))) \/
     x = ExHalt "synchronous_handler: syscall returned" 0 \/
     (exists r, r <> 0 /\ x = ExFrameReturn r) \/
     x = ExRunloop \/
     x = ExSpin \/
     (exists a, x = ExFault a /\ StackTrace.range_mapped unmapped a 8 = false)).
Proof.
  apply (synchronous_handler_leaves no_fault_handler syscall_entry
           unmapped no_contents (boot_with svc16_frame)).
  eexists. reflexivity.
Defined.

(** With nothing mapped, the unhandled fault of a frame whose stack
    pointer is null ends in a fault on address 0, after the frame has
    been printed and before any line of the stack. *)
Lemma synchronous_handler_fault_path_witness :
  let s := boot_with svc16_frame in
  let s' := final (synchronous_handler no_fault_handler syscall_entry
                     unmapped no_contents s) s in
  let f := running_frame (cpu s) in
  let fh := svc16_frame FRAME_FAULT_HANDLER in
  let retframe := fst (no_fault_handler fh f (env s)) in
  let scan := StackTrace.print_stack unmapped no_contents svc16_frame in
  ExFault 0
  = (if fh =? 0 then
       match scan with
       | StackTrace.Finished _ => ExSpin
       | StackTrace.Faulted a _ => ExFault a
       end
     else if retframe =? 0 then ExRunloop else ExFrameReturn retframe) /\
  trace s' = (if fh =? 0
              then trace s ++ [EvPrintFrame f; EvPrintStack (StackTrace.printed scan)]
              else trace s ++ [EvFaultHandler fh f]) /\
  env s' = (if fh =? 0 then env s else snd (no_fault_handler fh f (env s))) /\
  frames s'
  = (if negb (fh =? 0) && (retframe =? 0)
        && bool_decide (f = kernel_context_frame (cpu s))
     then <[f := fn_insert FRAME_FULL 0 svc16_frame]> (frames s)
     else frames s).
Proof.
  apply (synchronous_handler_fault_path no_fault_handler syscall_entry
           unmapped no_contents (boot_with svc16_frame) svc16_frame
           (ExFault 0)
           (final (synchronous_handler no_fault_handler syscall_entry
                     unmapped no_contents (boot_with svc16_frame))
                  (boot_with svc16_frame))).
  - reflexivity.
  - reflexivity.
  - vm_compute. reflexivity.
Defined.

(** With every address mapped the same trap prints 128 lines of the
    stack and spins. *)
Example unhandled_fault_spins :
  match synchronous_handler no_fault_handler syscall_entry
          all_zero_mapped all_zero (boot_with svc16_frame) with
  | Exit ExSpin s' =>
      exists out, trace s' = [EvPrintFrame 0x1000; EvPrintStack out] /\
                  length out = 128%nat
  | _ => False
  end.
Proof. vm_compute. eexists. split; reflexivity. Qed.

Lemma fallback_fault_handler_called_witness :
  exists s1 x s2,
    install_fallback_fault_handler [cpu armed_recording] 0xf000 armed_recording
    = Ret tt s1 /\
    synchronous_handler resuming entry_taken unmapped no_contents s1
    = Exit x s2 /\
    let f := running_frame (cpu armed_recording) in
    let retframe := fst (resuming 0xf000 f (env armed_recording)) in
    x = (if retframe =? 0 then ExRunloop else ExFrameReturn retframe) /\
    env s2 = snd (resuming 0xf000 f (env armed_recording)) /\
    trace s2 = trace armed_recording ++ [EvFaultHandler 0xf000 f].
Proof.
  apply (fallback_fault_handler_called resuming entry_taken
           unmapped no_contents
           0xf000 [cpu armed_recording] armed_recording (fun _ => 0)).
  - repeat constructor. eexists. reflexivity.
  - left.
  - reflexivity.
  - reflexivity.
  - reflexivity.
  - lia.
Defined.

(** There the handler at 0xf000 is called once and the trapped frame
    at 0x2000 is resumed. *)
Example fallback_resumes :
  match install_fallback_fault_handler [cpu armed_recording] 0xf000
          armed_recording with
  | Ret _ s1 =>
      match synchronous_handler resuming entry_taken unmapped no_contents s1 with
      | Exit x s2 => x = ExFrameReturn 0x2000 /\ env s2 = [0xf000]
      | _ => False
      end
  | _ => False
  end.
Proof. vm_compute. auto. Qed.

End InterruptMore.

(** ** The diagnostic stack walks *)

Module StackTraceMore.
Import Int64 Interrupt StackTrace StackTraceProps.
Local Open Scope Z_scope.

Section Memory.

Variable mapped : Z -> bool.
Variable load64 : Z -> Z.

(** The walk stops at [fp]. *)
Definition walk_stops (fp : Z) : Prop :=
  fp < 4096 \/ validate_virtual mapped fp 8 = false \/
  validate_virtual mapped (u64 (fp + 8)) 8 = false \/
  load64 (u64 (fp + 8)) = 0.

(** The chain of stack frames from [fp], with the return addresses it
    holds: a frame is a validated pair of words, the next frame pointer
    and a return address other than null. *)
Inductive frame_chain : Z -> list Z -> Prop :=
| chain_end fp : walk_stops fp -> frame_chain fp []
| chain_link fp out :
    ~ walk_stops fp ->
    frame_chain (load64 fp) out ->
    frame_chain fp (load64 (u64 (fp + 8)) :: out).

Lemma frame_trace_from_chain n : forall fp out,
  frame_chain fp out ->
  frame_trace_from mapped load64 n fp = Finished (take n out).
Proof.
  induction n as [| n IH]; intros fp out Hchain.
  - reflexivity.
  - cbn [frame_trace_from].
    destruct Hchain as [fp Hstop | fp out Hgo Hrest].
    + destruct (Z.ltb_spec fp 4096) as [_ | Hlow]; [reflexivity |].
      destruct (validate_virtual mapped fp 8) eqn:Hv0; cbn [negb orb];
        [| reflexivity].
      destruct (validate_virtual mapped (u64 (fp + 8)) 8) eqn:Hv1;
        cbn [negb]; [| reflexivity].
      destruct Hstop as [H | [H | [H | H]]]; try lia; try congruence.
      rewrite (deref_validated mapped load64 _ Hv1), H. reflexivity.
    + unfold walk_stops in Hgo.
      destruct (Z.ltb_spec fp 4096) as [Hlow | _]; [tauto |].
      destruct (validate_virtual mapped fp 8) eqn:Hv0; [| tauto].
      destruct (validate_virtual mapped (u64 (fp + 8)) 8) eqn:Hv1; [| tauto].
      cbn [negb orb].
      rewrite (deref_validated mapped load64 _ Hv1),
              (deref_validated mapped load64 _ Hv0).
      destruct (Z.eqb_spec (load64 (u64 (fp + 8))) 0) as [H0 | _]; [tauto |].
      rewrite (IH _ _ Hrest). reflexivity.
Qed.

(** X19. [frame_trace] prints the return addresses along the chain of
    frames from [fp], in order, and stops after the first 16. *)
Theorem frame_trace_prints_chain (fp : Z) (out : list Z) :
  frame_chain fp out ->
  frame_trace mapped load64 fp = Finished (take 16 out).
Proof. apply frame_trace_from_chain. Qed.

(** X20. On a frame that links to itself the walk still ends: it
    prints the return address 16 times and stops. *)
Theorem frame_trace_on_cycle (fp : Z) :
  ~ walk_stops fp -> load64 fp = fp ->
  frame_trace mapped load64 fp
  = Finished (replicate 16 (load64 (u64 (fp + 8)))).
Proof.
  intros Hgo Hself. unfold frame_trace.
  generalize 16%nat as n. induction n as [| n IH]; [reflexivity |].
  cbn [frame_trace_from replicate]. unfold walk_stops in Hgo.
  destruct (Z.ltb_spec fp 4096) as [Hlow | _]; [tauto |].
  destruct (validate_virtual mapped fp 8) eqn:Hv0; [| tauto].
  destruct (validate_virtual mapped (u64 (fp + 8)) 8) eqn:Hv1; [| tauto].
  cbn [negb orb].
  rewrite (deref_validated mapped load64 _ Hv1),
          (deref_validated mapped load64 _ Hv0).
  destruct (Z.eqb_spec (load64 (u64 (fp + 8))) 0) as [H0 | _]; [tauto |].
  rewrite Hself, IH. reflexivity.
Qed.

(** *** The raw-stack scan *)

Definition STACK_LIMIT : Z := 0xffff000000020000.

Lemma print_stack_from_sound n : forall x,
  Forall (fun line => fst line < STACK_LIMIT /\
                      range_mapped mapped (fst line) 8 = true /\
                      snd line = load64 (fst line))
         (printed (print_stack_from mapped load64 n x)) /\
  (length (printed (print_stack_from mapped load64 n x)) <= n)%nat /\
  (forall a out, print_stack_from mapped load64 n x = Faulted a out ->
                 a < STACK_LIMIT /\ range_mapped mapped a 8 = false).
Proof.
  induction n as [| n IH]; intros x; cbn [print_stack_from].
  - cbn. split; [constructor |]. split; [lia | discriminate].
  - fold STACK_LIMIT.
    destruct (Z.ltb_spec x STACK_LIMIT) as [Hlow | Hhigh];
      [| cbn; split; [constructor |]; split; [lia | discriminate]].
    unfold deref. destruct (range_mapped mapped x 8) eqn:Hmap.
    + destruct (IH (u64 (x + 8))) as (Hall & Hlen & Hfault).
      destruct (print_stack_from mapped load64 n (u64 (x + 8)))
        as [out | a out]; cbn [print_then printed] in *.
      * split; [constructor; [cbn; auto | exact Hall] |].
        split; [cbn; lia | discriminate].
      * split; [constructor; [cbn; auto | exact Hall] |].
        split; [cbn; lia |].
        intros a' out' [= <- <-]. apply (Hfault a out). reflexivity.
    + cbn. split; [constructor |]. split; [lia |].
      intros a out [= <- <-]. auto.
Qed.

(** X21. The raw-stack scan prints at most 128 lines, each an address
    below the upper address with the word stored there, read from
    mapped memory; it stops early only by reaching the upper address or
    by a fault, which it takes on an unmapped address below the upper
    address. *)
Theorem print_stack_bounds (c : frame) :
  let w := print_stack mapped load64 c in
  Forall (fun line => fst line < STACK_LIMIT /\
                      range_mapped mapped (fst line) 8 = true /\
                      snd line = load64 (fst line)) (printed w) /\
  (length (printed w) <= 128)%nat /\
  (forall a out, w = Faulted a out ->
                 a < STACK_LIMIT /\ range_mapped mapped a 8 = false).
Proof. apply (print_stack_from_sound 128). Qed.

End Memory.

(** A stack of two frames at 0x8000 and 0x8100, everything mapped: the
    first returns to 0x400100 and links to the second, which returns to
    0x400200 and links to null. *)
Definition all_mapped : Z -> bool := fun _ => true.
Definition two_frames : Z -> Z :=
  fun a =>
    if a =? 0x8000 then 0x8100
    else if a =? 0x8008 then 0x400100
    else if a =? 0x8108 then 0x400200
    else 0.

Lemma frame_trace_prints_chain_witness :
  frame_trace all_mapped two_frames 0x8000
  = Finished (take 16 [0x400100; 0x400200]).
Proof.
  apply (frame_trace_prints_chain all_mapped two_frames 0x8000
           [0x400100; 0x400200]).
  apply (chain_link all_mapped two_frames 0x8000 [0x400200]).
  - unfold walk_stops. vm_compute. intuition discriminate.
  - apply (chain_link all_mapped two_frames 0x8100 []).
    + unfold walk_stops. vm_compute. intuition discriminate.
    + apply chain_end. left. vm_compute. reflexivity.
Defined.

(** A frame at 0x8000 that links to itself. *)
Definition self_linked : Z -> Z :=
  fun a => if a =? 0x8000 then 0x8000 else 0x400100.

Lemma frame_trace_on_cycle_witness :
  frame_trace all_mapped self_linked 0x8000
  = Finished (replicate 16 (self_linked (u64 (0x8000 + 8)))).
Proof.
  apply (frame_trace_on_cycle all_mapped self_linked 0x8000).
  - unfold walk_stops. vm_compute. intuition discriminate.
  - reflexivity.
Defined.

End StackTraceMore.
